(** * WebTUIO controller: the TUIO 1.1 2Dcur encoder core

    A shallow embedding of [services/tuioService.ts] (session identifiers,
    message constructors, cursor physics, packet framing) and of the event
    handlers of [components/TouchSurface.tsx] (touch, mouse and the
    animation-frame loop), followed by the properties of the encoder.

    Modelling conventions.
    - A JavaScript [number] is an IEEE-754 binary64 value: Rocq's primitive
      [float].  The two module-level counters ([sessionIdCounter], [fseq])
      only ever hold integers below 2^53, where binary64 arithmetic is
      exact; they are kept as [Z] and injected with [Z2num] where they are
      stored into a [number] field.
    - [performance.now()] and [Date.now()] are reads of the environment:
      the value read is an explicit argument.
    - Module-level variables and React refs are the fields of [World];
      the code that mutates them runs in the state monad [M].
    - A JavaScript [Map] iterates in insertion order: it is an association
      list, see [JsMap]. *)

From Stdlib Require Import ZArith NArith Lia List Bool.
From Stdlib Require Import Floats.
From stdpp Require Import base list strings pretty.
Import ListNotations.

Set Warnings "-inexact-float,-register-all,-abstract-large-number".
Local Open Scope Z_scope.

(** ** JavaScript numbers *)

(** The binary64 value of an integer (exact below 2^53). *)
Definition Z2num (z : Z) : float :=
  SF2Prim (binary_normalize prec emax z 0 false).

(** The integer part (towards minus infinity) of a finite binary64 value;
    0 on zeros, infinities and NaN.  Only used to read back integers. *)
Definition num2Z (v : float) : Z :=
  match Prim2SF v with
  | S754_finite s m e =>
      if 0 <=? e then cond_Zopp s (Zpos m * 2 ^ e)
      else cond_Zopp s (Zpos m) / 2 ^ (- e)
  | _ => 0
  end.

(** [Math.floor]: zeros, infinities, NaN and values without fractional bits
    are returned as they are; otherwise the mantissa is divided, rounding
    towards minus infinity. *)
Definition Math_floor (v : float) : float :=
  match Prim2SF v with
  | S754_finite s m e =>
      if 0 <=? e then v else Z2num (cond_Zopp s (Zpos m) / 2 ^ (- e))
  | _ => v
  end.

(** [Math.max(a, b)] and [Math.min(a, b)] on two arguments: NaN if either
    is NaN, and +0 is larger than -0. *)
Definition Math_max (a b : float) : float :=
  if is_nan a || is_nan b then nan
  else if (a <? b)%float then b
  else if (b <? a)%float then a
  else if get_sign a then b else a.

Definition Math_min (a b : float) : float :=
  if is_nan a || is_nan b then nan
  else if (a <? b)%float then a
  else if (b <? a)%float then b
  else if get_sign a then a else b.

(** [Math.pow(b, 2)]: the square, computed as the product [b * b] (what
    fdlibm-derived implementations return for the exponent 2). *)
Definition Math_pow_2 (b : float) : float := (b * b)%float.

(** [Math.sqrt] is the IEEE-754 square root. *)
Definition Math_sqrt (v : float) : float := PrimFloat.sqrt v.

(** [Number(v)] on a value that already is a number. *)
Definition Number (v : float) : float := v.

(** A call [f(arg, extra...)] of a one-parameter function: JavaScript
    evaluates and then drops the arguments beyond the parameter list. *)
Definition js_call1 {A B : Type} (f : A -> B) (arg : A) (surplus : list float) : B :=
  f arg.

(** Truthiness of a [string | null] value. *)
Definition truthy (v : option string) : bool :=
  match v with
  | Some s => negb (String.eqb s EmptyString)
  | None => false
  end.

(** ** [Map<string, V>]: insertion-ordered association list *)

Module JsMap.
Section JsMap.
Context {V : Type}.

Definition t := list (string * V).

Definition empty : t := [].

Fixpoint get (k : string) (m : t) : option V :=
  match m with
  | [] => None
  | (k', v) :: rest => if String.eqb k' k then Some v else get k rest
  end.

(** [set] overwrites the value of an existing key in place (the entry
    keeps its position) and appends a new key at the end. *)
Fixpoint set (k : string) (v : V) (m : t) : t :=
  match m with
  | [] => [(k, v)]
  | (k', v') :: rest =>
      if String.eqb k' k then (k', v) :: rest else (k', v') :: set k v rest
  end.

Fixpoint delete (k : string) (m : t) : t :=
  match m with
  | [] => []
  | (k', v') :: rest =>
      if String.eqb k' k then delete k rest else (k', v') :: delete k rest
  end.

Definition keys (m : t) : list string := map fst m.
Definition values (m : t) : list V := map snd m.
Definition size (m : t) : nat := length m.
End JsMap.
Arguments t : clear implicits.
End JsMap.

(** ** types.ts *)

Inductive Protocol := WEBSOCKET | UDP_BRIDGE.

(** [AppSettings]; [coordinateScale] is the field [DEFAULT_SETTINGS] adds
    and the touch surface reads. *)
Record AppSettings := mkAppSettings {
  host : string;
  port : float;
  protocol : Protocol;
  periodicUpdates : bool;
  fullBundle : bool;
  blobMessages : bool;
  invertY : bool;
  coordinateScale : float;
}.

Record TuioCursor := mkTuioCursor {
  sessionId : float;
  x : float;
  y : float;
  vx : float;
  vy : float;
  a : float;
  lastTime : float;
}.

(** [OSCArgument]: the service only builds strings and numbers. *)
Inductive OSCArgument :=
| ArgString (s : string)
| ArgNumber (v : float).

Record OSCMessage := mkOSCMessage {
  address : string;
  args : list OSCArgument;
}.

(** The values handed to [JSON.stringify]; object members are kept in the
    order of the object literal. *)
Inductive JSON :=
| JBool (b : bool)
| JNumber (v : float)
| JString (s : string)
| JArray (items : list JSON)
| JObject (members : list (string * JSON)).

Definition json_of_arg (arg : OSCArgument) : JSON :=
  match arg with
  | ArgString s => JString s
  | ArgNumber v => JNumber v
  end.

Definition json_of_message (m : OSCMessage) : JSON :=
  JObject [("address", JString (address m));
           ("args", JArray (map json_of_arg (args m)))].

(** ** constants.ts *)

Definition DEFAULT_SETTINGS : AppSettings :=
  {| host := "127.0.0.1";
     port := 8080%float;
     protocol := UDP_BRIDGE;
     periodicUpdates := true;
     fullBundle := true;
     blobMessages := false;
     invertY := false;
     coordinateScale := 1.0%float |}.

Definition TUIO_PROFILE : string := "/tuio/2Dcur".
Definition SOURCE_NAME : string := "WebTUIO@webclient".

(** ** The mutable state and its monad *)

Record World := mkWorld {
  sessionIdCounter : Z;                    (* tuioService: let sessionIdCounter *)
  fseq : Z;                                (* tuioService: let fseq *)
  cursorsRef : JsMap.t TuioCursor;         (* TouchSurface: cursorsRef.current *)
  mouseIdRef : option string;              (* TouchSurface: mouseIdRef.current *)
  lastMouseMoveTimeRef : float;
  lastPeriodicUpdateRef : float;
}.

Definition initialWorld : World :=
  {| sessionIdCounter := 0;
     fseq := 0;
     cursorsRef := JsMap.empty;
     mouseIdRef := None;
     lastMouseMoveTimeRef := 0%float;
     lastPeriodicUpdateRef := 0%float |}.

Definition M (A : Type) : Type := World -> A * World.

Definition ret {A} (v : A) : M A := fun w => (v, w).
Definition bind {A B} (c : M A) (k : A -> M B) : M B :=
  fun w => let (v, w') := c w in k v w'.
Definition gets {A} (proj : World -> A) : M A := fun w => (proj w, w).
Definition modify (f : World -> World) : M unit := fun w => (tt, f w).

Notation "x <- c ;; k" := (bind c (fun x => k))
  (at level 100, c at next level, right associativity).
Notation "c ;;; k" := (bind c (fun _ => k))
  (at level 100, right associativity).

Definition set_sessionIdCounter (n : Z) (w : World) : World :=
  mkWorld n (fseq w) (cursorsRef w) (mouseIdRef w)
          (lastMouseMoveTimeRef w) (lastPeriodicUpdateRef w).
Definition set_fseq (n : Z) (w : World) : World :=
  mkWorld (sessionIdCounter w) n (cursorsRef w) (mouseIdRef w)
          (lastMouseMoveTimeRef w) (lastPeriodicUpdateRef w).
Definition set_cursorsRef (m : JsMap.t TuioCursor) (w : World) : World :=
  mkWorld (sessionIdCounter w) (fseq w) m (mouseIdRef w)
          (lastMouseMoveTimeRef w) (lastPeriodicUpdateRef w).
Definition set_mouseIdRef (v : option string) (w : World) : World :=
  mkWorld (sessionIdCounter w) (fseq w) (cursorsRef w) v
          (lastMouseMoveTimeRef w) (lastPeriodicUpdateRef w).
Definition set_lastMouseMoveTimeRef (v : float) (w : World) : World :=
  mkWorld (sessionIdCounter w) (fseq w) (cursorsRef w) (mouseIdRef w)
          v (lastPeriodicUpdateRef w).
Definition set_lastPeriodicUpdateRef (v : float) (w : World) : World :=
  mkWorld (sessionIdCounter w) (fseq w) (cursorsRef w) (mouseIdRef w)
          (lastMouseMoveTimeRef w) v.

(** [list.forEach(body)] for a body with effects on the world. *)
Fixpoint forEach {A} (l : list A) (body : A -> M unit) : M unit :=
  match l with
  | [] => ret tt
  | item :: rest => body item ;;; forEach rest body
  end.

(** [messages.push(m)] on the handler-local array. *)
Definition push {A} (l : list A) (v : A) : list A := l ++ [v].

(** ** services/tuioService.ts *)

Module TuioService.

Definition getNextSessionId : M Z :=
  fun w =>
    let counter := sessionIdCounter w + 1 in
    let counter := if counter >? 10000 then 0 else counter in
    (counter, set_sessionIdCounter counter w).

Definition createSourceMessage : OSCMessage :=
  {| address := TUIO_PROFILE;
     args := [ArgString "source"; ArgString SOURCE_NAME] |}.

Definition createAliveMessage (activeIds : list float) : OSCMessage :=
  {| address := TUIO_PROFILE;
     args := ArgString "alive" :: map ArgNumber activeIds |}.

(** [%] takes the sign of the dividend: [Z.rem]. *)
Definition createFseqMessage : M OSCMessage :=
  fun w =>
    let n := Z.rem (fseq w + 1) 2147483648 in
    ({| address := TUIO_PROFILE;
        args := [ArgString "fseq"; ArgNumber (Z2num n)] |},
     set_fseq n w).

Definition createSetMessage (cursor : TuioCursor) : OSCMessage :=
  {| address := TUIO_PROFILE;
     args := [ArgString "set";
              ArgNumber (Math_floor (sessionId cursor));
              ArgNumber (Number (x cursor));
              ArgNumber (Number (y cursor));
              ArgNumber (Number (vx cursor));
              ArgNumber (Number (vy cursor));
              ArgNumber (Number (a cursor))] |}.

(** [now] is the value [performance.now()] returns in the call. *)
Definition updateCursorPhysics
    (current : TuioCursor) (newX newY : float) (now : float) : TuioCursor :=
  let dt := ((now - lastTime current) / 1000)%float in
  if (dt <=? 0.001)%float then
    {| sessionId := sessionId current;
       x := newX;
       y := newY;
       vx := vx current;
       vy := vy current;
       a := a current;
       lastTime := now |}
  else
    let dx := (newX - x current)%float in
    let dy := (newY - y current)%float in
    let newVx := (dx / dt)%float in
    let newVy := (dy / dt)%float in
    let dv := Math_sqrt (Math_pow_2 (newVx - vx current)
                         + Math_pow_2 (newVy - vy current))%float in
    let newA := (dv / dt)%float in
    {| sessionId := sessionId current;
       x := newX;
       y := newY;
       vx := newVx;
       vy := newVy;
       a := newA;
       lastTime := now |}.

Definition createNewCursor (x0 y0 : float) (now : float) : M TuioCursor :=
  id <- getNextSessionId ;;
  ret {| sessionId := Z2num id;
         x := x0;
         y := y0;
         vx := 0%float;
         vy := 0%float;
         a := 0%float;
         lastTime := now |}.

(** The value [generatePacket] serializes with [JSON.stringify];
    [dateNow] is what [Date.now()] returns in the call. *)
Definition generatePacket
    (messages : list OSCMessage) (settings : AppSettings) (dateNow : float) : JSON :=
  if fullBundle settings then
    JObject [("timeTag", JNumber dateNow);
             ("packets", JArray (map json_of_message messages))]
  else
    match messages with
    | [m] => json_of_message m
    | _ => JObject [("bundle", JBool true);
                    ("packets", JArray (map json_of_message messages))]
    end.

End TuioService.

(** ** components/TouchSurface.tsx *)

(** What a handler reads from the DOM.  Every [performance.now()] a handler
    reaches has its own field: the clock may advance between two reads. *)
Record DOMRect := mkDOMRect {
  left : float;
  top : float;
  width : float;
  height : float;
}.

Record Touch := mkTouch {
  identifier : Z;
  touchClientX : float;
  touchClientY : float;
  touchNow : float;      (* performance.now() while this touch is processed *)
}.

Inductive TouchType := Tstart | Tmove | Tend | Tcancel.

Record MouseEvent := mkMouseEvent {
  button : Z;
  clientX : float;
  clientY : float;
  handlerNow : float;    (* performance.now() in the handler (throttle) *)
  serviceNow : float;    (* performance.now() in the service call *)
}.

Inductive Event :=
| TouchEvent (type : TouchType) (rect : DOMRect) (changedTouches : list Touch)
| MouseDown (e : MouseEvent) (rect : DOMRect)
| MouseMove (e : MouseEvent) (rect : DOMRect)
| MouseUp (e : MouseEvent)
| AnimationFrame (now : float).

Module TouchSurface.

Definition PERIODIC_UPDATE_INTERVAL : float := 33%float.
Definition MOUSE_MOVE_THROTTLE : float := 16%float.

(** [sendBundle]: the payload goes out only on an open socket. *)
Definition sendBundle (socketOpen : bool) (settings : AppSettings)
    (dateNow : float) (messages : list OSCMessage) : option JSON :=
  if socketOpen then Some (TuioService.generatePacket messages settings dateNow)
  else None.

(** The animation-frame [loop]: the periodic (heartbeat) frame.  The update
    of the on-screen cursors and the rescheduling are not modelled; each
    [AnimationFrame] event is one run of the loop. *)
Definition loop (settings : AppSettings) (now : float) : M (option (list OSCMessage)) :=
  cursors <- gets cursorsRef ;;
  if periodicUpdates settings && (0 <? JsMap.size cursors)%nat then
    last <- gets lastPeriodicUpdateRef ;;
    if (PERIODIC_UPDATE_INTERVAL <=? now - last)%float then
      let messages := [] in
      let messages := push messages TuioService.createSourceMessage in
      let messages :=
        fold_left (fun ms cursor =>
                     push ms (js_call1 TuioService.createSetMessage cursor
                                       [coordinateScale settings]))
                  (JsMap.values cursors) messages in
      let activeSessionIds := map sessionId (JsMap.values cursors) in
      let messages := push messages (TuioService.createAliveMessage activeSessionIds) in
      fseqMessage <- TuioService.createFseqMessage ;;
      let messages := push messages fseqMessage in
      modify (set_lastPeriodicUpdateRef now) ;;;
      ret (Some messages)
    else ret None
  else ret None.

(** The body of [changedTouches.forEach] in [processTouch]. *)
Definition processOneTouch (settings : AppSettings) (rect : DOMRect)
    (type : TouchType) (touch : Touch) : M unit :=
  let idStr := pretty (identifier touch) in
  let normX := ((touchClientX touch - left rect) / width rect)%float in
  let normY := ((touchClientY touch - top rect) / height rect)%float in
  let normX := Math_max 0 (Math_min 1 normX) in
  let normY := Math_max 0 (Math_min 1 normY) in
  let normY := if invertY settings then (1 - normY)%float else normY in
  match type with
  | Tstart =>
      newCursor <- TuioService.createNewCursor normX normY (touchNow touch) ;;
      modify (fun w => set_cursorsRef (JsMap.set idStr newCursor (cursorsRef w)) w)
  | Tmove =>
      currentCursors <- gets cursorsRef ;;
      match JsMap.get idStr currentCursors with
      | Some existing =>
          let updated :=
            TuioService.updateCursorPhysics existing normX normY (touchNow touch) in
          modify (fun w => set_cursorsRef (JsMap.set idStr updated (cursorsRef w)) w)
      | None => ret tt
      end
  | Tend | Tcancel =>
      modify (fun w => set_cursorsRef (JsMap.delete idStr (cursorsRef w)) w)
  end.

Definition processTouch (settings : AppSettings) (rect : DOMRect)
    (changedTouches : list Touch) (type : TouchType) : M (list OSCMessage) :=
  let messages := [] in
  let messages := push messages TuioService.createSourceMessage in
  forEach changedTouches (processOneTouch settings rect type) ;;;
  currentCursors <- gets cursorsRef ;;
  let messages :=
    fold_left (fun ms cursor =>
                 push ms (js_call1 TuioService.createSetMessage cursor
                                   [coordinateScale settings]))
              (JsMap.values currentCursors) messages in
  let activeSessionIds := map sessionId (JsMap.values currentCursors) in
  let messages := push messages (TuioService.createAliveMessage activeSessionIds) in
  fseqMessage <- TuioService.createFseqMessage ;;
  let messages := push messages fseqMessage in
  ret messages.

Definition handleMouseDown (settings : AppSettings) (e : MouseEvent) (rect : DOMRect)
    : M (option (list OSCMessage)) :=
  if negb (button e =? 0) then ret None
  else
    let normX := ((clientX e - left rect) / width rect)%float in
    let normY := ((clientY e - top rect) / height rect)%float in
    let normX := Math_max 0 (Math_min 1 normX) in
    let normY := Math_max 0 (Math_min 1 normY) in
    let normY := if invertY settings then (1 - normY)%float else normY in
    let idStr := "mouse-0" in
    modify (set_mouseIdRef (Some idStr)) ;;;
    newCursor <- TuioService.createNewCursor normX normY (serviceNow e) ;;
    modify (fun w => set_cursorsRef (JsMap.set idStr newCursor (cursorsRef w)) w) ;;;
    currentCursors <- gets cursorsRef ;;
    let messages := [] in
    let messages := push messages TuioService.createSourceMessage in
    let messages :=
      fold_left (fun ms cursor =>
                   push ms (js_call1 TuioService.createSetMessage cursor
                                     [coordinateScale settings]))
                (JsMap.values currentCursors) messages in
    let activeSessionIds := map sessionId (JsMap.values currentCursors) in
    let messages := push messages (TuioService.createAliveMessage activeSessionIds) in
    fseqMessage <- TuioService.createFseqMessage ;;
    let messages := push messages fseqMessage in
    ret (Some messages).

Definition handleMouseMove (settings : AppSettings) (e : MouseEvent) (rect : DOMRect)
    : M (option (list OSCMessage)) :=
  mouseId <- gets mouseIdRef ;;
  if negb (truthy mouseId) then ret None
  else
    let now := handlerNow e in
    last <- gets lastMouseMoveTimeRef ;;
    if (now - last <? MOUSE_MOVE_THROTTLE)%float then ret None
    else
      modify (set_lastMouseMoveTimeRef now) ;;;
      let normX := ((clientX e - left rect) / width rect)%float in
      let normY := ((clientY e - top rect) / height rect)%float in
      let normX := Math_max 0 (Math_min 1 normX) in
      let normY := Math_max 0 (Math_min 1 normY) in
      let normY := if invertY settings then (1 - normY)%float else normY in
      let idStr := default EmptyString mouseId in
      currentCursors <- gets cursorsRef ;;
      match JsMap.get idStr currentCursors with
      | Some existing =>
          let updated :=
            TuioService.updateCursorPhysics existing normX normY (serviceNow e) in
          modify (fun w => set_cursorsRef (JsMap.set idStr updated (cursorsRef w)) w) ;;;
          currentCursors <- gets cursorsRef ;;
          let messages := [] in
          let messages := push messages TuioService.createSourceMessage in
          let messages :=
            fold_left (fun ms cursor =>
                         push ms (js_call1 TuioService.createSetMessage cursor
                                           [coordinateScale settings]))
                      (JsMap.values currentCursors) messages in
          let activeSessionIds := map sessionId (JsMap.values currentCursors) in
          let messages :=
            push messages (TuioService.createAliveMessage activeSessionIds) in
          fseqMessage <- TuioService.createFseqMessage ;;
          let messages := push messages fseqMessage in
          ret (Some messages)
      | None => ret None
      end.

Definition handleMouseUp (e : MouseEvent) : M (option (list OSCMessage)) :=
  mouseId <- gets mouseIdRef ;;
  if negb (truthy mouseId) then ret None
  else
    let idStr := default EmptyString mouseId in
    modify (fun w => set_cursorsRef (JsMap.delete idStr (cursorsRef w)) w) ;;;
    modify (set_mouseIdRef None) ;;;
    currentCursors <- gets cursorsRef ;;
    let messages := [] in
    let messages := push messages TuioService.createSourceMessage in
    let messages :=
      fold_left (fun ms cursor => push ms (TuioService.createSetMessage cursor))
                (JsMap.values currentCursors) messages in
    let activeSessionIds := map sessionId (JsMap.values currentCursors) in
    let messages := push messages (TuioService.createAliveMessage activeSessionIds) in
    fseqMessage <- TuioService.createFseqMessage ;;
    let messages := push messages fseqMessage in
    ret (Some messages).

(** The listeners the component attaches: one event, at most one frame. *)
Definition dispatch (settings : AppSettings) (ev : Event)
    : M (option (list OSCMessage)) :=
  match ev with
  | TouchEvent type rect changedTouches =>
      messages <- processTouch settings rect changedTouches type ;;
      ret (Some messages)
  | MouseDown e rect => handleMouseDown settings e rect
  | MouseMove e rect => handleMouseMove settings e rect
  | MouseUp e => handleMouseUp e
  | AnimationFrame now => loop settings now
  end.

(** A run of the component over a sequence of events: the frames built
    (oldest first) and the final world. *)
Fixpoint run (settings : AppSettings) (evs : list Event)
    : M (list (list OSCMessage)) :=
  match evs with
  | [] => ret []
  | ev :: rest =>
      frame <- dispatch settings ev ;;
      frames <- run settings rest ;;
      ret (match frame with Some ms => ms :: frames | None => frames end)
  end.

End TouchSurface.

(** ** Quantities the properties speak about *)

(** Session identifiers an event acquires: one per started touch, one per
    left-button mouse press. *)
Definition eventAcquisitions (ev : Event) : nat :=
  match ev with
  | TouchEvent Tstart _ changedTouches => length changedTouches
  | MouseDown e _ => if button e =? 0 then 1%nat else 0%nat
  | _ => 0%nat
  end.

Definition acquisitions (evs : list Event) : nat :=
  list_sum (map eventAcquisitions evs).

(** The identifiers returned by [n] successive acquisitions. *)
Fixpoint acquireMany (n : nat) : M (list Z) :=
  match n with
  | O => ret []
  | S k =>
      id <- TuioService.getNextSessionId ;;
      ids <- acquireMany k ;;
      ret (id :: ids)
  end.

(** The identifier the [n]-th acquisition returns, counted from a fresh
    counter ([None] for [n = 0]). *)
Definition nthAcquired (n : nat) : option Z :=
  last (fst (acquireMany n initialWorld)).

(** The world after [n] calls of the fseq constructor. *)
Definition fseqCalls (n : N) (w : World) : World :=
  N.iter n (fun w' => snd (TuioService.createFseqMessage w')) w.

(** The sequence number the [n]-th call of the fseq constructor emits,
    counted from a fresh counter ([n >= 1]). *)
Definition nthFseq (n : N) : OSCMessage :=
  fst (TuioService.createFseqMessage (fseqCalls (N.pred n) initialWorld)).

(** The fseq message carrying the sequence number [n]. *)
Definition fseqMessage (n : Z) : OSCMessage :=
  {| address := TUIO_PROFILE; args := [ArgString "fseq"; ArgNumber (Z2num n)] |}.

(** The layout of one frame over the cursors [cs] with sequence number [n]. *)
Definition frameLayout (cs : list TuioCursor) (n : Z) : list OSCMessage :=
  [TuioService.createSourceMessage]
  ++ map TuioService.createSetMessage cs
  ++ [TuioService.createAliveMessage (map sessionId cs)]
  ++ [fseqMessage n].

(** The envelope of a full bundle: the time tag and the packets. *)
Definition bundleEnvelope (timeTag : float) (messages : list OSCMessage) : JSON :=
  JObject [("timeTag", JNumber timeTag);
           ("packets", JArray (map json_of_message messages))].

(** Member lookup on a serialized object. *)
Definition member (key : string) (v : JSON) : option JSON :=
  match v with
  | JObject members => snd <$> find (fun kv => String.eqb (fst kv) key) members
  | _ => None
  end.

(** The settings with another [coordinateScale]. *)
Definition withCoordinateScale (scale : float) (s : AppSettings) : AppSettings :=
  {| host := host s;
     port := port s;
     protocol := protocol s;
     periodicUpdates := periodicUpdates s;
     fullBundle := fullBundle s;
     blobMessages := blobMessages s;
     invertY := invertY s;
     coordinateScale := scale |}.

(** The integer a cursor's [sessionId] holds. *)
Definition cursorId (c : TuioCursor) : Z := num2Z (sessionId c).

(** The registry invariant while the counter has not wrapped: every active
    cursor carries one of the identifiers handed out so far, each once. *)
Definition idsWithin (w : World) : Prop :=
  0 <= sessionIdCounter w <= 10000
  /\ Forall (fun c => 1 <= cursorId c <= sessionIdCounter w)
            (JsMap.values (cursorsRef w))
  /\ NoDup (map cursorId (JsMap.values (cursorsRef w))).

(** ** Quantities of the further properties *)

(** The normalization every handler applies to a raw quotient. *)
Definition clampUnit (v : float) : float := Math_max 0 (Math_min 1 v).

(** A coordinate is normalized when it lies in [0, 1]; NaN (from a
    degenerate bounding box) passes the clamp and is the one exception. *)
Definition unitOrNaN (v : float) : bool :=
  is_nan v || ((0 <=? v)%float && (v <=? 1)%float).

(** The stored coordinates the handlers can vouch for: [x] always, [y] when
    it is not mirrored. *)
Definition coordinatesClamped (settings : AppSettings) (c : TuioCursor) : Prop :=
  unitOrNaN (x c) = true /\ (invertY settings = false -> unitOrNaN (y c) = true).

(** What every cursor of a reachable map satisfies: its session identifier
    is the image of an integer of [0, 10000], and its coordinates are
    clamped. *)
Definition cursorSound (settings : AppSettings) (c : TuioCursor) : Prop :=
  (exists k, 0 <= k <= 10000 /\ sessionId c = Z2num k)
  /\ coordinatesClamped settings c.

Definition worldSound (settings : AppSettings) (w : World) : Prop :=
  0 <= sessionIdCounter w <= 10000
  /\ Forall (cursorSound settings) (JsMap.values (cursorsRef w)).

(** [n] taps of one touch: it starts and ends, [n] times over. *)
Fixpoint taps (n : nat) (rect : DOMRect) (touch : Touch) : list Event :=
  match n with
  | O => []
  | S k => TouchEvent Tstart rect [touch] :: TouchEvent Tend rect [touch]
           :: taps k rect touch
  end.

(** * Properties *)

(** ** Binary64 comparison *)

Lemma SFcompare_Lt_swap (u v : spec_float) :
  SFcompare u v = Some Lt -> SFcompare v u = Some Gt.
Proof.
  destruct u as [su | su | | su mu eu], v as [sv | sv | | sv mv ev];
    simpl; try discriminate;
    try (destruct su; discriminate || reflexivity);
    try (destruct sv; discriminate || reflexivity);
    try (destruct su, sv; discriminate || reflexivity).
  pose proof (Pos.compare_cont_antisym mu mv Eq) as Hm. simpl in Hm.
  destruct su, sv; try discriminate; try reflexivity;
    rewrite (Z.compare_antisym eu ev), <- Hm;
    destruct (eu ?= ev); simpl; try discriminate; try reflexivity;
    destruct (Pos.compare_cont Eq mu mv); simpl;
    discriminate || reflexivity.
Qed.

Lemma ltb_not_leb (u v : float) :
  (u <? v)%float = true -> (v <=? u)%float = false.
Proof.
  rewrite ltb_spec, leb_spec. unfold SFltb, SFleb. intros H.
  destruct (SFcompare (Prim2SF u) (Prim2SF v)) as [[ | | ] | ] eqn:Hc;
    try discriminate.
  now rewrite (SFcompare_Lt_swap _ _ Hc).
Qed.

(** ** Integers stored in a [number] *)

Lemma digits2_pos_iter_xO (p n : positive) :
  digits2_pos (Pos.iter xO p n) = (digits2_pos p + n)%positive.
Proof.
  induction n as [ | n IH] using Pos.peano_ind.
  - simpl. lia.
  - rewrite Pos.iter_succ. simpl. rewrite IH. lia.
Qed.

Lemma Zpos_iter_xO (p n : positive) :
  Zpos (Pos.iter xO p n) = Zpos p * 2 ^ Zpos n.
Proof.
  induction n as [ | n IH] using Pos.peano_ind.
  - simpl. lia.
  - rewrite Pos.iter_succ, (Pos2Z.inj_xO (Pos.iter xO p n)), IH.
    rewrite Pos2Z.inj_succ, Z.pow_succ_r by lia. lia.
Qed.

Lemma digits2_pos_lower (p : positive) :
  2 ^ (Zpos (digits2_pos p) - 1) <= Zpos p.
Proof.
  induction p as [p IH | p IH | ]; simpl digits2_pos; [ | | simpl; lia].
  - rewrite Pos2Z.inj_succ, (Pos2Z.inj_xI p).
    replace (Z.succ (Zpos (digits2_pos p)) - 1)
      with (Z.succ (Zpos (digits2_pos p) - 1)) by lia.
    rewrite Z.pow_succ_r by lia. lia.
  - rewrite Pos2Z.inj_succ, (Pos2Z.inj_xO p).
    replace (Z.succ (Zpos (digits2_pos p)) - 1)
      with (Z.succ (Zpos (digits2_pos p) - 1)) by lia.
    rewrite Z.pow_succ_r by lia. lia.
Qed.

(** A mantissa of exactly 53 bits with an exponent in [-52, 0] needs no
    rounding. *)
Lemma binary_round_aux_exact (m : positive) (e : Z) :
  Zpos (digits2_pos m) = 53 -> -52 <= e <= 0 ->
  binary_round_aux prec emax false (Zpos m) e loc_Exact = S754_finite false m e
  /\ valid_binary (S754_finite false m e) = true.
Proof.
  intros Hm He.
  assert (fexp prec emax (Zpos (digits2_pos m) + e) = e) as Hfe
    by (unfold fexp, SpecFloat.emin, prec, emax; lia).
  assert ((e <=? emax - prec) = true) as Hle
    by (apply Z.leb_le; unfold emax, prec; lia).
  split.
  - unfold binary_round_aux, shr_fexp. cbn [Zdigits2 shr_record_of_loc].
    rewrite Hfe, Z.sub_diag.
    cbn [shr shr_m loc_of_shr_record round_nearest_even Zdigits2 shr_record_of_loc].
    rewrite Hfe, Z.sub_diag. cbn [shr shr_m]. now rewrite Hle.
  - unfold valid_binary, SpecFloat.valid_binary, bounded, canonical_mantissa.
    now rewrite Hfe, Z.eqb_refl, Hle.
Qed.

(** An integer that fits the mantissa is normalized without rounding: the
    mantissa is the integer shifted up to 53 bits. *)
Lemma binary_normalize_small (p : positive) :
  Zpos p < 2 ^ 53 ->
  exists m e,
    binary_normalize prec emax (Zpos p) 0 false = S754_finite false m e
    /\ valid_binary (S754_finite false m e) = true
    /\ -52 <= e <= 0
    /\ Zpos m = Zpos p * 2 ^ (- e).
Proof.
  intros Hp.
  assert (Zpos (digits2_pos p) <= 53) as Hd.
  { pose proof (digits2_pos_lower p) as Hlow.
    destruct (Z_le_gt_dec (Zpos (digits2_pos p)) 53) as [Hle | Hgt]; [exact Hle | ].
    assert (2 ^ 53 <= 2 ^ (Zpos (digits2_pos p) - 1))
      by (apply Z.pow_le_mono_r; lia).
    lia. }
  set (d := digits2_pos p) in *.
  assert (fexp prec emax (Zpos d + 0) = Zpos d - 53) as Hfexp
    by (unfold fexp, SpecFloat.emin, prec, emax; lia).
  unfold binary_normalize, binary_round. fold d. rewrite Hfexp.
  unfold shl_align.
  destruct (Zpos d - 53 - 0) as [ | q | q] eqn:Hq; try lia.
  - exists p, 0.
    destruct (binary_round_aux_exact p 0) as [Hround Hvalid]; [fold d; lia | lia | ].
    repeat split; try assumption; lia.
  - exists (Pos.iter xO p q), (Zpos d - 53).
    destruct (binary_round_aux_exact (Pos.iter xO p q) (Zpos d - 53))
      as [Hround Hvalid].
    + rewrite digits2_pos_iter_xO. fold d. lia.
    + lia.
    + repeat split; try assumption; try lia.
      rewrite Zpos_iter_xO. do 2 f_equal. lia.
Qed.

(** Every integer below 2^53 is read back from its binary64 image; in
    particular [Z2num] is injective there. *)
Lemma num2Z_Z2num (k : Z) : 0 <= k < 2 ^ 53 -> num2Z (Z2num k) = k.
Proof.
  intros Hk. destruct k as [ | p | p]; [reflexivity | | lia].
  destruct (binary_normalize_small p) as (m & e & Hnorm & Hvalid & He & Hm);
    [lia | ].
  unfold num2Z, Z2num. rewrite Hnorm, (Prim2SF_SF2Prim _ Hvalid).
  destruct (Z.leb_spec 0 e) as [Hpos | Hneg]; cbn [cond_Zopp].
  - assert (e = 0) as -> by lia. rewrite Hm. simpl. lia.
  - rewrite Hm. apply Z.div_mul. apply Z.pow_nonzero; lia.
Qed.

(** The image of a non-negative integer below 2^53 is not negative. *)
Lemma Z2num_nonneg (k : Z) :
  0 <= k < 2 ^ 53 -> (0 <=? Z2num k)%float = true.
Proof.
  intros Hk. destruct k as [ | p | p]; [reflexivity | | lia].
  destruct (binary_normalize_small p) as (m & e & Hnorm & Hvalid & _);
    [lia | ].
  rewrite leb_spec. unfold Z2num.
  rewrite Hnorm, (Prim2SF_SF2Prim _ Hvalid). reflexivity.
Qed.

(** [Math.floor] leaves the image of an integer below 2^53 as it is. *)
Lemma Math_floor_Z2num (k : Z) :
  0 <= k < 2 ^ 53 -> Math_floor (Z2num k) = Z2num k.
Proof.
  intros Hk. destruct k as [ | p | p]; [reflexivity | | lia].
  destruct (binary_normalize_small p) as (m & e & Hnorm & Hvalid & He & Hm);
    [lia | ].
  unfold Math_floor. unfold Z2num at 1.
  rewrite Hnorm, (Prim2SF_SF2Prim _ Hvalid).
  destruct (Z.leb_spec 0 e) as [Hpos | Hneg]; cbn [cond_Zopp].
  - unfold Z2num. now rewrite Hnorm.
  - rewrite Hm, Z.div_mul by (apply Z.pow_nonzero; lia). reflexivity.
Qed.

(** ** Cursor physics *)

(** C1. For a sample whose elapsed time [dt = (now - lastTime)/1000] exceeds
    0.001 s, [updateCursorPhysics] returns the cursor with the new position
    and time stamp, velocity [(newX - x)/dt], [(newY - y)/dt], and
    acceleration [sqrt((vx'-vx)^2 + (vy'-vy)^2)/dt]. *)
Theorem updateCursorPhysics_finite_differences
    (current : TuioCursor) (newX newY now : float) :
  let dt := ((now - lastTime current) / 1000)%float in
  (0.001 <? dt)%float = true ->
  let vx' := ((newX - x current) / dt)%float in
  let vy' := ((newY - y current) / dt)%float in
  TuioService.updateCursorPhysics current newX newY now =
    {| sessionId := sessionId current;
       x := newX;
       y := newY;
       vx := vx';
       vy := vy';
       a := (PrimFloat.sqrt ((vx' - vx current) * (vx' - vx current)
                             + (vy' - vy current) * (vy' - vy current)) / dt)%float;
       lastTime := now |}.
Proof.
  intros dt Hdt vx' vy'. unfold TuioService.updateCursorPhysics.
  fold dt. rewrite (ltb_not_leb _ _ Hdt). reflexivity.
Qed.

(** The sample of the specification: [dt = 1.0] from rest at the origin to
    [(1, 0)] gives velocity [(1, 0)] and acceleration [1]. *)
Lemma updateCursorPhysics_unit_sample :
  let current := mkTuioCursor 1 0 0 0 0 0 0 in
  let updated := TuioService.updateCursorPhysics current 1 0 1000 in
  (0.001 <? (1000 - lastTime current) / 1000)%float = true
  /\ ((1000 - lastTime current) / 1000)%float = 1%float
  /\ vx updated = 1%float /\ vy updated = 0%float /\ a updated = 1%float
  /\ x updated = 1%float /\ y updated = 0%float.
Proof.
  intros current updated. subst updated.
  rewrite (updateCursorPhysics_finite_differences current 1 0 1000 eq_refl).
  repeat split; reflexivity.
Defined.

(** C2. For a sample whose elapsed time is at most 0.001 s (zero and
    negative included), [updateCursorPhysics] only sets the position and the
    time stamp: velocity, acceleration and session identifier are the input
    cursor's, and no quotient by [dt] enters the result. *)
Theorem updateCursorPhysics_position_only
    (current : TuioCursor) (newX newY now : float) :
  ((now - lastTime current) / 1000 <=? 0.001)%float = true ->
  TuioService.updateCursorPhysics current newX newY now =
    {| sessionId := sessionId current;
       x := newX;
       y := newY;
       vx := vx current;
       vy := vy current;
       a := a current;
       lastTime := now |}.
Proof.
  intros Hdt. unfold TuioService.updateCursorPhysics. now rewrite Hdt.
Qed.

(** A duplicate time stamp ([dt = 0]) and a backward one ([dt = -0.25]). *)
Lemma updateCursorPhysics_duplicate_and_backward_sample :
  let current := mkTuioCursor 4 0.5 0.5 2 (-3) 7 500 in
  TuioService.updateCursorPhysics current 0.75 0.25 500
    = mkTuioCursor 4 0.75 0.25 2 (-3) 7 500
  /\ TuioService.updateCursorPhysics current 0.75 0.25 250
    = mkTuioCursor 4 0.75 0.25 2 (-3) 7 250.
Proof.
  intros current. split.
  - exact (updateCursorPhysics_position_only current 0.75 0.25 500 eq_refl).
  - exact (updateCursorPhysics_position_only current 0.75 0.25 250 eq_refl).
Defined.

(** ** Message constructors *)

(** C6. Whatever scale the caller passes, the set message is addressed at
    [/tuio/2Dcur] and its arguments are ["set"], the floor of the session
    identifier, and [x], [y], [vx], [vy], [a] exactly as stored in the
    cursor; no handler's result depends on [coordinateScale]. *)
Theorem createSetMessage_ignores_scale (cursor : TuioCursor) (scale : float) :
  js_call1 TuioService.createSetMessage cursor [scale] =
    {| address := "/tuio/2Dcur";
       args := [ArgString "set";
                ArgNumber (Math_floor (sessionId cursor));
                ArgNumber (x cursor);
                ArgNumber (y cursor);
                ArgNumber (vx cursor);
                ArgNumber (vy cursor);
                ArgNumber (a cursor)] |}
  /\ forall (settings : AppSettings) (ev : Event) (w : World),
       TouchSurface.dispatch (withCoordinateScale scale settings) ev w
       = TouchSurface.dispatch settings ev w.
Proof.
  split; [reflexivity |].
  intros settings ev w. destruct ev; reflexivity.
Qed.

(** ** Packet framing *)

(** C5 as stated fails on the fallback: with [fullBundle] off and two
    messages the payload is not the time-tagged bundle envelope, and carries
    no time tag at all. *)
Lemma generatePacket_fallback_is_not_the_bundle_envelope :
  let settings := mkAppSettings "127.0.0.1" 8080 UDP_BRIDGE true false false false 1 in
  let ms := [TuioService.createSourceMessage; TuioService.createAliveMessage []] in
  fullBundle settings = false
  /\ length ms = 2%nat
  /\ TuioService.generatePacket ms settings 1700000000000
     <> bundleEnvelope 1700000000000 ms
  /\ member "timeTag" (TuioService.generatePacket ms settings 1700000000000) = None.
Proof.
  repeat split; try reflexivity. discriminate.
Qed.

(** C5, amended. With [fullBundle] on, the payload is the bundle envelope:
    the time tag read at encoding time and the messages in order.  With
    [fullBundle] off, a single message is serialized bare (no [packets]
    member), and more than one message goes into a second kind of envelope:
    [bundle = true] and the messages in order, without time tag. *)
Theorem generatePacket_framing
    (ms : list OSCMessage) (settings : AppSettings) (dateNow : float) :
  let packet := TuioService.generatePacket ms settings dateNow in
  (fullBundle settings = true ->
     packet = bundleEnvelope dateNow ms
     /\ member "timeTag" packet = Some (JNumber dateNow)
     /\ member "packets" packet = Some (JArray (map json_of_message ms)))
  /\ (fullBundle settings = false ->
      forall m, ms = [m] ->
        packet = json_of_message m /\ member "packets" packet = None)
  /\ (fullBundle settings = false ->
      (1 < length ms)%nat ->
        packet = JObject [("bundle", JBool true);
                          ("packets", JArray (map json_of_message ms))]
        /\ member "timeTag" packet = None).
Proof.
  intros packet. subst packet. unfold TuioService.generatePacket.
  split; [ | split].
  - intros ->. repeat split; reflexivity.
  - intros -> m ->. split; reflexivity.
  - intros -> Hlen.
    destruct ms as [ | m1 [ | m2 rest]]; simpl in Hlen; try lia.
    split; reflexivity.
Qed.

(** The three framings on a source message and an empty alive message. *)
Lemma generatePacket_framing_sample :
  let off := mkAppSettings "127.0.0.1" 8080 UDP_BRIDGE true false false false 1 in
  let source := TuioService.createSourceMessage in
  let alive := TuioService.createAliveMessage [] in
  TuioService.generatePacket [source; alive] DEFAULT_SETTINGS 1700000000000
  = bundleEnvelope 1700000000000 [source; alive]
  /\ TuioService.generatePacket [source] off 1700000000000 = json_of_message source
  /\ TuioService.generatePacket [source; alive] off 1700000000000
     = JObject [("bundle", JBool true);
                ("packets", JArray [json_of_message source; json_of_message alive])].
Proof.
  intros off source alive.
  split; [ | split].
  - exact (proj1 (proj1 (generatePacket_framing [source; alive] DEFAULT_SETTINGS
                           1700000000000) eq_refl)).
  - exact (proj1 (proj1 (proj2 (generatePacket_framing [source] off 1700000000000))
                        eq_refl source eq_refl)).
  - exact (proj1 (proj2 (proj2 (generatePacket_framing [source; alive] off
                                  1700000000000))
                        eq_refl (le_n 2))).
Defined.

(** C10. With [fullBundle] off and two or more messages, the payload is an
    object with [bundle = true] and [packets] the messages in order, and no
    [timeTag]; the [fullBundle] envelope has a [timeTag] and no [bundle]. *)
Theorem generatePacket_fallback_envelope
    (ms : list OSCMessage) (off on : AppSettings) (dateNow : float) :
  fullBundle off = false ->
  fullBundle on = true ->
  (2 <= length ms)%nat ->
  let fallback := TuioService.generatePacket ms off dateNow in
  let full := TuioService.generatePacket ms on dateNow in
  fallback = JObject [("bundle", JBool true);
                      ("packets", JArray (map json_of_message ms))]
  /\ member "bundle" fallback = Some (JBool true)
  /\ member "packets" fallback = Some (JArray (map json_of_message ms))
  /\ member "timeTag" fallback = None
  /\ member "timeTag" full = Some (JNumber dateNow)
  /\ member "packets" full = Some (JArray (map json_of_message ms))
  /\ member "bundle" full = None.
Proof.
  intros Hoff Hon Hlen fallback full. subst fallback full.
  unfold TuioService.generatePacket. rewrite Hoff, Hon.
  destruct ms as [ | m1 [ | m2 rest]]; simpl in Hlen; try lia.
  repeat split; reflexivity.
Qed.

(** The two envelopes of the same two messages. *)
Lemma generatePacket_fallback_envelope_sample :
  let off := mkAppSettings "127.0.0.1" 8080 UDP_BRIDGE true false false false 1 in
  let ms := [TuioService.createSourceMessage; TuioService.createAliveMessage []] in
  member "bundle" (TuioService.generatePacket ms off 1700000000000) = Some (JBool true)
  /\ member "timeTag" (TuioService.generatePacket ms off 1700000000000) = None
  /\ member "timeTag" (TuioService.generatePacket ms DEFAULT_SETTINGS 1700000000000)
     = Some (JNumber 1700000000000)
  /\ member "bundle" (TuioService.generatePacket ms DEFAULT_SETTINGS 1700000000000) = None.
Proof.
  intros off ms.
  pose proof (generatePacket_fallback_envelope ms off DEFAULT_SETTINGS 1700000000000
                eq_refl eq_refl (le_n 2)) as H.
  simpl in H. tauto.
Defined.

(** ** The session-identifier counter *)

Lemma getNextSessionId_counter (w : World) :
  sessionIdCounter (snd (TuioService.getNextSessionId w))
  = fst (TuioService.getNextSessionId w).
Proof. reflexivity. Qed.

Lemma getNextSessionId_mod (w : World) :
  0 <= sessionIdCounter w <= 10000 ->
  fst (TuioService.getNextSessionId w) = (sessionIdCounter w + 1) mod 10001.
Proof.
  intros Hc. unfold TuioService.getNextSessionId. cbn [fst].
  destruct (Z.gtb_spec (sessionIdCounter w + 1) 10000) as [Hgt | Hle].
  - assert (sessionIdCounter w + 1 = 10001) as -> by lia. reflexivity.
  - symmetry. apply Z.mod_small. lia.
Qed.

(** [n + 1] acquisitions are [n] acquisitions followed by one more. *)
Lemma acquireMany_snoc (n : nat) (w : World) :
  acquireMany (S n) w =
    (fst (acquireMany n w)
       ++ [fst (TuioService.getNextSessionId (snd (acquireMany n w)))],
     snd (TuioService.getNextSessionId (snd (acquireMany n w)))).
Proof.
  revert w. induction n as [ | k IH]; intros w.
  - reflexivity.
  - change (acquireMany (S (S k)) w)
      with (let (ids, w2) := acquireMany (S k) (snd (TuioService.getNextSessionId w)) in
            (fst (TuioService.getNextSessionId w) :: ids, w2)).
    rewrite IH.
    change (acquireMany (S k) w)
      with (let (ids, w2) := acquireMany k (snd (TuioService.getNextSessionId w)) in
            (fst (TuioService.getNextSessionId w) :: ids, w2)).
    destruct (acquireMany k (snd (TuioService.getNextSessionId w))) as [ids w2].
    reflexivity.
Qed.

Lemma acquireMany_counter (n : nat) :
  sessionIdCounter (snd (acquireMany n initialWorld)) = Z.of_nat n mod 10001.
Proof.
  induction n as [ | k IH].
  - reflexivity.
  - rewrite acquireMany_snoc. cbn [snd].
    rewrite getNextSessionId_counter, getNextSessionId_mod.
    + rewrite IH, Zplus_mod_idemp_l. f_equal. lia.
    + rewrite IH. pose proof (Z.mod_pos_bound (Z.of_nat k) 10001). lia.
Qed.

(** C7. Each acquisition increments the counter, resets it to 0 once it
    exceeds 10000, and returns it.  Counted from a fresh counter, the
    [(n+1)]-th acquisition returns [(n+1) mod 10001]: a value in [0, 10000],
    equal to the rank up to rank 10000, and 0 at rank 10001. *)
Theorem getNextSessionId_wraps (n : nat) :
  let before := snd (acquireMany n initialWorld) in
  let call := TuioService.getNextSessionId before in
  fst call = (if sessionIdCounter before + 1 >? 10000 then 0
              else sessionIdCounter before + 1)
  /\ sessionIdCounter (snd call) = fst call
  /\ nthAcquired (S n) = Some (fst call)
  /\ fst call = Z.of_nat (S n) mod 10001
  /\ 0 <= fst call <= 10000
  /\ (Z.of_nat (S n) <= 10000 -> fst call = Z.of_nat (S n))
  /\ nthAcquired 10001 = Some 0.
Proof.
  intros before call.
  assert (fst call = Z.of_nat (S n) mod 10001) as Hmod.
  { subst call before. rewrite getNextSessionId_mod.
    - rewrite acquireMany_counter, Zplus_mod_idemp_l. f_equal. lia.
    - rewrite acquireMany_counter.
      pose proof (Z.mod_pos_bound (Z.of_nat n) 10001). lia. }
  assert (forall k, nthAcquired (S k) = Some (Z.of_nat (S k) mod 10001)) as Hnth.
  { intros k. unfold nthAcquired. rewrite acquireMany_snoc. cbn [fst].
    rewrite last_snoc, getNextSessionId_mod.
    - rewrite acquireMany_counter, Zplus_mod_idemp_l. do 2 f_equal. lia.
    - rewrite acquireMany_counter.
      pose proof (Z.mod_pos_bound (Z.of_nat k) 10001). lia. }
  pose proof (Z.mod_pos_bound (Z.of_nat (S n)) 10001) as Hrange.
  split; [reflexivity | ].
  split; [reflexivity | ].
  split; [now rewrite Hnth, Hmod | ].
  split; [exact Hmod | ].
  split; [rewrite Hmod; lia | ].
  split.
  - intros Hle. rewrite Hmod. apply Z.mod_small. lia.
  - exact (Hnth 10000%nat).
Qed.

(** The first acquisition returns 1 and the 10001st returns 0. *)
Lemma getNextSessionId_wraps_sample :
  nthAcquired 1 = Some 1 /\ nthAcquired 10001 = Some 0.
Proof.
  destruct (getNextSessionId_wraps 0) as (_ & _ & Hnth & _ & _ & Hrank & Hwrap).
  split; [ | exact Hwrap].
  rewrite Hnth, Hrank; [reflexivity | cbn; lia].
Defined.

(** ** The frame-sequence counter *)

Lemma createFseqMessage_step (w : World) :
  0 <= fseq w ->
  TuioService.createFseqMessage w
  = (fseqMessage ((fseq w + 1) mod 2147483648),
     set_fseq ((fseq w + 1) mod 2147483648) w).
Proof.
  intros Hf. unfold TuioService.createFseqMessage, fseqMessage.
  rewrite Z.rem_mod_nonneg by lia. reflexivity.
Qed.

Lemma fseqCalls_succ (n : N) (w : World) :
  fseqCalls (N.succ n) w
  = snd (TuioService.createFseqMessage (fseqCalls n w)).
Proof. unfold fseqCalls. now rewrite N.iter_succ. Qed.

Lemma fseqCalls_fseq (n : N) :
  fseq (fseqCalls n initialWorld) = Z.of_N n mod 2147483648.
Proof.
  induction n as [ | k IH] using N.peano_ind.
  - reflexivity.
  - rewrite fseqCalls_succ, createFseqMessage_step.
    + cbn [snd set_fseq fseq]. rewrite IH, Zplus_mod_idemp_l. f_equal. lia.
    + rewrite IH. pose proof (Z.mod_pos_bound (Z.of_N k) 2147483648). lia.
Qed.

(** C8. Counted from a fresh counter, every call of the fseq constructor
    advances the counter by one modulo 2^31 and emits the new value, which
    is never negative; the 2^31-th call emits 0. *)
Theorem createFseqMessage_wraps (n : N) :
  let before := fseqCalls n initialWorld in
  let after := fseqCalls (N.succ n) initialWorld in
  fseq after = (fseq before + 1) mod 2147483648
  /\ fseq after = Z.of_N (N.succ n) mod 2147483648
  /\ 0 <= fseq after < 2147483648
  /\ nthFseq (N.succ n)
     = {| address := "/tuio/2Dcur";
          args := [ArgString "fseq"; ArgNumber (Z2num (fseq after))] |}
  /\ (0 <=? Z2num (fseq after))%float = true
  /\ nthFseq 2147483648
     = {| address := "/tuio/2Dcur"; args := [ArgString "fseq"; ArgNumber 0%float] |}
  /\ fseq (fseqCalls 2147483648 initialWorld) = 0.
Proof.
  intros before after.
  assert (forall k, nthFseq (N.succ k)
                    = fseqMessage (fseq (fseqCalls (N.succ k) initialWorld))) as Hnth.
  { intros k. unfold nthFseq. rewrite N.pred_succ, fseqCalls_succ.
    rewrite createFseqMessage_step; [reflexivity | ].
    rewrite fseqCalls_fseq.
    pose proof (Z.mod_pos_bound (Z.of_N k) 2147483648). lia. }
  pose proof (Z.mod_pos_bound (Z.of_N (N.succ n)) 2147483648) as Hrange.
  subst before after.
  split; [rewrite !fseqCalls_fseq, Zplus_mod_idemp_l; f_equal; lia | ].
  split; [apply fseqCalls_fseq | ].
  split; [rewrite fseqCalls_fseq; lia | ].
  split; [apply Hnth | ].
  split.
  { apply Z2num_nonneg. rewrite fseqCalls_fseq.
    assert (2 ^ 31 <= 2 ^ 53) by (apply Z.pow_le_mono_r; lia). lia. }
  split.
  - change 2147483648%N with (N.succ 2147483647).
    rewrite Hnth, fseqCalls_fseq. reflexivity.
  - rewrite fseqCalls_fseq. reflexivity.
Qed.

(** ** The cursor map *)

Section JsMapMembership.
Context {V : Type}.
Implicit Types (m : JsMap.t V) (k : string) (v : V).

Lemma JsMap_get_delete k m : JsMap.get k (JsMap.delete k m) = None.
Proof.
  induction m as [ | [k' v'] rest IH]; simpl; [reflexivity | ].
  destruct (String.eqb k' k) eqn:Hk; simpl; [exact IH | now rewrite Hk].
Qed.

Lemma JsMap_get_In k m v : JsMap.get k m = Some v -> In v (JsMap.values m).
Proof.
  induction m as [ | [k' v'] rest IH]; simpl; [discriminate | ].
  destruct (String.eqb k' k); [intros [= ->]; now left | right; now apply IH].
Qed.

Lemma JsMap_values_set_In k v m u :
  In u (JsMap.values (JsMap.set k v m)) -> In u (JsMap.values m) \/ u = v.
Proof.
  induction m as [ | [k' v'] rest IH]; simpl.
  - intros [-> | []]. now right.
  - destruct (String.eqb k' k); simpl.
    + intros [-> | Hin]; [now right | left; now right].
    + intros [-> | Hin]; [left; now left | ].
      destruct (IH Hin) as [Hrest | ->]; [left; now right | now right].
Qed.

Lemma JsMap_values_delete_In k m u :
  In u (JsMap.values (JsMap.delete k m)) -> In u (JsMap.values m).
Proof.
  induction m as [ | [k' v'] rest IH]; simpl; [tauto | ].
  destruct (String.eqb k' k); simpl; [now right; apply IH | ].
  intros [-> | Hin]; [now left | right; now apply IH].
Qed.

Lemma JsMap_set_Forall (P : V -> Prop) k v m :
  Forall P (JsMap.values m) -> P v -> Forall P (JsMap.values (JsMap.set k v m)).
Proof.
  intros Hall Hv. apply List.Forall_forall. intros u Hin.
  destruct (JsMap_values_set_In _ _ _ _ Hin) as [Hold | ->]; [ | exact Hv].
  now apply (proj1 (List.Forall_forall P _) Hall).
Qed.

Lemma JsMap_delete_Forall (P : V -> Prop) k m :
  Forall P (JsMap.values m) -> Forall P (JsMap.values (JsMap.delete k m)).
Proof.
  intros Hall. apply List.Forall_forall. intros u Hin.
  apply (proj1 (List.Forall_forall P _) Hall). now apply JsMap_values_delete_In in Hin.
Qed.
End JsMapMembership.

Section JsMapImages.
Context {V B : Type} (f : V -> B).
Implicit Types (m : JsMap.t V) (k : string) (v : V).

(** Overwriting a key with a value of the same [f]-image leaves the
    images, in order, as they were. *)
Lemma JsMap_set_same_image k v old m :
  JsMap.get k m = Some old -> f v = f old ->
  map f (JsMap.values (JsMap.set k v m)) = map f (JsMap.values m).
Proof.
  intros Hget Hf. induction m as [ | [k' v'] rest IH]; simpl in *; [discriminate | ].
  destruct (String.eqb k' k); simpl.
  - injection Hget as ->. now rewrite Hf.
  - f_equal. now apply IH.
Qed.

Lemma JsMap_set_NoDup_image k v m :
  NoDup (map f (JsMap.values m)) ->
  ~ In (f v) (map f (JsMap.values m)) ->
  NoDup (map f (JsMap.values (JsMap.set k v m))).
Proof.
  induction m as [ | [k' v'] rest IH]; simpl; intros Hnd Hfresh.
  - apply NoDup_cons. split; [rewrite list_elem_of_In; tauto | constructor].
  - apply NoDup_cons in Hnd as [Hv' Hrest]. rewrite list_elem_of_In in Hv'.
    assert (~ In (f v) (map f (JsMap.values rest))) as Hfresh'
      by (intros Hin; apply Hfresh; now right).
    destruct (String.eqb k' k); simpl; apply NoDup_cons;
      rewrite list_elem_of_In.
    + split; [exact Hfresh' | exact Hrest].
    + split; [ | now apply IH].
      intros Hin. apply in_map_iff in Hin as (u & Hu & Hin).
      destruct (JsMap_values_set_In _ _ _ _ Hin) as [Hold | ->].
      * apply Hv'. rewrite <- Hu. now apply in_map.
      * apply Hfresh. left. congruence.
Qed.

Lemma JsMap_delete_NoDup_image k m :
  NoDup (map f (JsMap.values m)) ->
  NoDup (map f (JsMap.values (JsMap.delete k m))).
Proof.
  induction m as [ | [k' v'] rest IH]; simpl; intros Hnd; [constructor | ].
  apply NoDup_cons in Hnd as [Hv' Hrest]. rewrite list_elem_of_In in Hv'.
  destruct (String.eqb k' k); simpl; [now apply IH | ].
  apply NoDup_cons. rewrite list_elem_of_In. split; [ | now apply IH].
  intros Hin. apply in_map_iff in Hin as (u & Hu & Hin).
  apply Hv'. rewrite <- Hu. apply in_map. now apply JsMap_values_delete_In in Hin.
Qed.

End JsMapImages.

(** ** Session identifiers under the estimator *)

Lemma updateCursorPhysics_sessionId (current : TuioCursor) (newX newY now : float) :
  sessionId (TuioService.updateCursorPhysics current newX newY now)
  = sessionId current.
Proof.
  unfold TuioService.updateCursorPhysics.
  now destruct ((now - lastTime current) / 1000 <=? 0.001)%float.
Qed.

(** ** Frames built by the handlers *)

(** Runs the monadic glue of a handler, leaving its pure parts folded. *)
Tactic Notation "run_handler" "in" hyp(H) :=
  cbv beta iota zeta delta
    [bind ret gets modify TuioService.createNewCursor
     TuioService.getNextSessionId TuioService.createFseqMessage] in H.
Tactic Notation "run_handler" :=
  cbv beta iota zeta delta
    [bind ret gets modify TuioService.createNewCursor
     TuioService.getNextSessionId TuioService.createFseqMessage].

Lemma fold_left_push {A B : Type} (f : A -> B) (l : list A) (acc : list B) :
  fold_left (fun ms c => push ms (f c)) l acc = acc ++ map f l.
Proof.
  revert acc. induction l as [ | c rest IH]; intros acc; simpl.
  - now rewrite app_nil_r.
  - rewrite IH. unfold push. now rewrite <- app_assoc.
Qed.

(** The pushes of a handler, in order: the messages pushed so far, one
    message per item, then the last two. *)
Lemma pushes_layout {A B : Type} (f : A -> B) (l : list A) (acc : list B)
    (alive last : B) :
  push (push (fold_left (fun ms c => push ms (f c)) l acc) alive) last
  = acc ++ map f l ++ [alive] ++ [last].
Proof.
  rewrite fold_left_push. unfold push. now rewrite <- !app_assoc.
Qed.

(** What one touch of a touch event does to the world. *)
Lemma processOneTouch_effect
    (settings : AppSettings) (rect : DOMRect) (type : TouchType)
    (touch : Touch) (w : World) :
  let w' := snd (TouchSurface.processOneTouch settings rect type touch w) in
  let key := pretty (identifier touch) in
  fseq w' = fseq w
  /\ match type with
     | Tstart =>
         sessionIdCounter w' = fst (TuioService.getNextSessionId w)
         /\ exists c, sessionId c = Z2num (fst (TuioService.getNextSessionId w))
                      /\ cursorsRef w' = JsMap.set key c (cursorsRef w)
     | Tmove =>
         sessionIdCounter w' = sessionIdCounter w
         /\ match JsMap.get key (cursorsRef w) with
            | Some existing =>
                exists c, sessionId c = sessionId existing
                          /\ cursorsRef w' = JsMap.set key c (cursorsRef w)
            | None => w' = w
            end
     | Tend | Tcancel =>
         sessionIdCounter w' = sessionIdCounter w
         /\ cursorsRef w' = JsMap.delete key (cursorsRef w)
     end.
Proof.
  intros w' key. subst w' key. unfold TouchSurface.processOneTouch.
  destruct type; cbn.
  - split; [reflexivity | split; [reflexivity | ]].
    eexists. split; [ | reflexivity]. reflexivity.
  - destruct (JsMap.get (pretty (identifier touch)) (cursorsRef w)) as [existing | ];
      cbn; split; try reflexivity; split; try reflexivity.
    eexists. split; [ | reflexivity]. apply updateCursorPhysics_sessionId.
  - repeat split; reflexivity.
  - repeat split; reflexivity.
Qed.

Lemma forEach_touches_fseq
    (settings : AppSettings) (rect : DOMRect) (type : TouchType)
    (touches : list Touch) (w : World) :
  fseq (snd (forEach touches (TouchSurface.processOneTouch settings rect type) w))
  = fseq w.
Proof.
  revert w. induction touches as [ | touch rest IH]; intros w; [reflexivity | ].
  cbn [forEach]. unfold bind at 1.
  pose proof (processOneTouch_effect settings rect type touch w) as [Hf _].
  destruct (TouchSurface.processOneTouch settings rect type touch w) as [u w1].
  cbn [snd] in Hf. now rewrite IH.
Qed.

(** The frame of a touch event is laid out over the map as the touches of
    the event left it. *)
Lemma processTouch_frame
    (settings : AppSettings) (rect : DOMRect) (touches : list Touch)
    (type : TouchType) (w : World) :
  let w1 := snd (forEach touches (TouchSurface.processOneTouch settings rect type) w) in
  let n := Z.rem (fseq w + 1) 2147483648 in
  TouchSurface.processTouch settings rect touches type w
  = (frameLayout (JsMap.values (cursorsRef w1)) n, set_fseq n w1).
Proof.
  intros w1 n. subst w1 n. unfold TouchSurface.processTouch.
  pose proof (forEach_touches_fseq settings rect type touches w) as Hf.
  unfold bind at 1.
  destruct (forEach touches (TouchSurface.processOneTouch settings rect type) w)
    as [u w1].
  cbn [snd] in *. cbn. rewrite pushes_layout, Hf. reflexivity.
Qed.

(** C4. Whenever a handler builds a frame (touch start, move, end, cancel,
    the mouse handlers, the periodic loop), the frame is: the source
    message, one set message per cursor of the map as the handler leaves
    it, in the map's order, one alive message with exactly those cursors'
    session identifiers, and one fseq message carrying the advanced
    counter.  Over an empty map it is source, an alive without identifiers,
    and fseq. *)
Theorem frame_layout
    (settings : AppSettings) (ev : Event) (w w' : World)
    (frame : list OSCMessage) :
  TouchSurface.dispatch settings ev w = (Some frame, w') ->
  frame = [TuioService.createSourceMessage]
          ++ map TuioService.createSetMessage (JsMap.values (cursorsRef w'))
          ++ [TuioService.createAliveMessage
                (map sessionId (JsMap.values (cursorsRef w')))]
          ++ [fseqMessage (fseq w')]
  /\ fseq w' = Z.rem (fseq w + 1) 2147483648
  /\ (JsMap.size (cursorsRef w') = 0%nat ->
      frame = [TuioService.createSourceMessage;
               TuioService.createAliveMessage [];
               fseqMessage (fseq w')]).
Proof.
  intros Hev.
  assert (frame = frameLayout (JsMap.values (cursorsRef w')) (fseq w')
          /\ fseq w' = Z.rem (fseq w + 1) 2147483648) as [Hframe Hfseq].
  { destruct ev as [type rect touches | e rect | e rect | e | now];
      cbn [TouchSurface.dispatch] in Hev.
    - unfold bind in Hev. rewrite processTouch_frame in Hev.
      injection Hev as <- <-. split; reflexivity.
    - unfold TouchSurface.handleMouseDown in Hev.
      destruct (negb (button e =? 0)); [discriminate | ].
      run_handler in Hev. rewrite pushes_layout in Hev.
      injection Hev as <- <-. split; reflexivity.
    - unfold TouchSurface.handleMouseMove in Hev. run_handler in Hev.
      destruct (negb (truthy (mouseIdRef w))); [discriminate | ].
      destruct (handlerNow e - lastMouseMoveTimeRef w <? TouchSurface.MOUSE_MOVE_THROTTLE)%float;
        [discriminate | ].
      cbn [cursorsRef set_lastMouseMoveTimeRef] in Hev.
      destruct (JsMap.get (default EmptyString (mouseIdRef w)) (cursorsRef w));
        [ | discriminate].
      rewrite pushes_layout in Hev.
      injection Hev as <- <-. split; reflexivity.
    - unfold TouchSurface.handleMouseUp in Hev. run_handler in Hev.
      destruct (negb (truthy (mouseIdRef w))); [discriminate | ].
      rewrite pushes_layout in Hev.
      injection Hev as <- <-. split; reflexivity.
    - unfold TouchSurface.loop in Hev. run_handler in Hev.
      destruct (periodicUpdates settings && (0 <? JsMap.size (cursorsRef w))%nat);
        [ | discriminate].
      destruct (TouchSurface.PERIODIC_UPDATE_INTERVAL <=? now - lastPeriodicUpdateRef w)%float;
        [ | discriminate].
      rewrite pushes_layout in Hev.
      injection Hev as <- <-. split; reflexivity. }
  split; [exact Hframe | split; [exact Hfseq | ]].
  intros Hsize. rewrite Hframe.
  destruct (cursorsRef w') as [ | entry rest]; [reflexivity | discriminate].
Qed.

(** A touch starts and ends: the frame of the end has no set message. *)
Lemma frame_layout_after_last_touch_ends :
  let rect := mkDOMRect 0 0 1 1 in
  let touch := mkTouch 7 0.2 0.3 0 in
  let w := snd (TouchSurface.dispatch DEFAULT_SETTINGS
                  (TouchEvent Tstart rect [touch]) initialWorld) in
  exists w',
    TouchSurface.dispatch DEFAULT_SETTINGS (TouchEvent Tend rect [touch]) w
    = (Some [TuioService.createSourceMessage;
             TuioService.createAliveMessage [];
             fseqMessage 2], w')
    /\ JsMap.size (cursorsRef w') = 0%nat.
Proof.
  intros rect touch w.
  destruct (TouchSurface.dispatch DEFAULT_SETTINGS (TouchEvent Tend rect [touch]) w)
    as [[frame | ] w'] eqn:Hev; [ | discriminate Hev].
  exists w'.
  assert (JsMap.size (cursorsRef w') = 0%nat) as Hsize
    by (now injection Hev as _ <-).
  destruct (frame_layout DEFAULT_SETTINGS _ w w' frame Hev) as (_ & Hfseq & Hempty).
  rewrite (Hempty Hsize), Hfseq. split; [reflexivity | exact Hsize].
Defined.

(** ** Orphan moves *)

Lemma forEach_move_absent
    (settings : AppSettings) (rect : DOMRect) (touches : list Touch) (w : World) :
  Forall (fun touch => JsMap.get (pretty (identifier touch)) (cursorsRef w) = None)
         touches ->
  forEach touches (TouchSurface.processOneTouch settings rect Tmove) w = (tt, w).
Proof.
  induction 1 as [ | touch rest Habsent _ IH]; [reflexivity | ].
  cbn [forEach]. unfold bind at 1.
  pose proof (processOneTouch_effect settings rect Tmove touch w) as (_ & _ & Hw).
  cbv zeta in Hw. rewrite Habsent in Hw.
  destruct (TouchSurface.processOneTouch settings rect Tmove touch w) as [[] w1].
  cbn [snd] in Hw. subst w1. exact IH.
Qed.

Lemma run_cons_world (settings : AppSettings) (ev : Event) (rest : list Event)
    (w : World) :
  snd (TouchSurface.run settings (ev :: rest) w)
  = snd (TouchSurface.run settings rest (snd (TouchSurface.dispatch settings ev w))).
Proof.
  cbn [TouchSurface.run]. unfold bind at 1.
  destruct (TouchSurface.dispatch settings ev w) as [frame w1].
  unfold bind, ret. cbn [snd].
  now destruct (TouchSurface.run settings rest w1) as [frames w2].
Qed.

Lemma dispatch_touch_world
    (settings : AppSettings) (type : TouchType) (rect : DOMRect)
    (touches : list Touch) (w : World) :
  snd (TouchSurface.dispatch settings (TouchEvent type rect touches) w)
  = set_fseq (Z.rem (fseq w + 1) 2147483648)
      (snd (forEach touches (TouchSurface.processOneTouch settings rect type) w)).
Proof.
  cbn [TouchSurface.dispatch]. unfold bind. now rewrite processTouch_frame.
Qed.

Lemma forEach_one_touch
    (settings : AppSettings) (type : TouchType) (rect : DOMRect)
    (touch : Touch) (w : World) :
  snd (forEach [touch] (TouchSurface.processOneTouch settings rect type) w)
  = snd (TouchSurface.processOneTouch settings rect type touch w).
Proof.
  cbn [forEach]. unfold bind, ret.
  now destruct (TouchSurface.processOneTouch settings rect type touch w).
Qed.

(** C9. A move whose identifier is absent from the cursor map leaves the
    map and the session counter as they are: nothing is created, modified
    or acquired.  This holds for a touch move whose identifiers are all
    absent and for a mouse move whose identifier is absent (which builds no
    frame either).  In particular, after a start and an end of an
    identifier, a move of that identifier changes nothing. *)
Theorem orphan_move_is_noop (settings : AppSettings) (rect : DOMRect) :
  (forall (touches : list Touch) (w : World),
     Forall (fun touch =>
               JsMap.get (pretty (identifier touch)) (cursorsRef w) = None)
            touches ->
     let w' := snd (TouchSurface.dispatch settings (TouchEvent Tmove rect touches) w) in
     cursorsRef w' = cursorsRef w
     /\ sessionIdCounter w' = sessionIdCounter w)
  /\ (forall (e : MouseEvent) (w : World),
        JsMap.get (default EmptyString (mouseIdRef w)) (cursorsRef w) = None ->
        let result := TouchSurface.dispatch settings (MouseMove e rect) w in
        fst result = None
        /\ cursorsRef (snd result) = cursorsRef w
        /\ sessionIdCounter (snd result) = sessionIdCounter w)
  /\ (forall (w0 : World) (r1 r2 : DOMRect) (started ended moved : Touch),
        identifier started = identifier moved ->
        identifier ended = identifier moved ->
        let w := snd (TouchSurface.run settings
                        [TouchEvent Tstart r1 [started]; TouchEvent Tend r2 [ended]]
                        w0) in
        let w' := snd (TouchSurface.dispatch settings (TouchEvent Tmove rect [moved]) w) in
        JsMap.get (pretty (identifier moved)) (cursorsRef w) = None
        /\ cursorsRef w' = cursorsRef w
        /\ sessionIdCounter w' = sessionIdCounter w).
Proof.
  assert (forall touches w,
            Forall (fun touch =>
                      JsMap.get (pretty (identifier touch)) (cursorsRef w) = None)
                   touches ->
            let w' := snd (TouchSurface.dispatch settings
                             (TouchEvent Tmove rect touches) w) in
            cursorsRef w' = cursorsRef w
            /\ sessionIdCounter w' = sessionIdCounter w) as Hnoop.
  { intros touches w Habsent. cbv zeta.
    rewrite dispatch_touch_world, (forEach_move_absent _ _ _ _ Habsent).
    split; reflexivity. }
  split; [exact Hnoop | split].
  { intros e w Habsent. cbn [TouchSurface.dispatch].
    unfold TouchSurface.handleMouseMove. run_handler.
    destruct (negb (truthy (mouseIdRef w))); [repeat split | ].
    destruct (handlerNow e - lastMouseMoveTimeRef w <? TouchSurface.MOUSE_MOVE_THROTTLE)%float;
      [repeat split | ].
    cbn [cursorsRef set_lastMouseMoveTimeRef]. rewrite Habsent.
    repeat split. }
  intros w0 r1 r2 started ended moved Hstart Hend w.
  assert (JsMap.get (pretty (identifier moved)) (cursorsRef w) = None) as Habsent.
  { subst w. rewrite !run_cons_world. cbn [TouchSurface.run ret snd].
    rewrite (dispatch_touch_world settings Tend), forEach_one_touch.
    cbn [cursorsRef set_fseq].
    pose proof (processOneTouch_effect settings r2 Tend ended
                  (snd (TouchSurface.dispatch settings
                          (TouchEvent Tstart r1 [started]) w0)))
      as (_ & _ & Hdel).
    cbv zeta in Hdel. rewrite Hdel, Hend. apply JsMap_get_delete. }
  split; [exact Habsent | ].
  apply Hnoop. constructor; [exact Habsent | constructor].
Qed.

(** The scenario of the specification: start, end, then a late move. *)
Lemma orphan_move_after_start_and_end :
  let rect := mkDOMRect 0 0 1 1 in
  let w := snd (TouchSurface.run DEFAULT_SETTINGS
                  [TouchEvent Tstart rect [mkTouch 7 0.2 0.3 0];
                   TouchEvent Tend rect [mkTouch 7 0.2 0.3 40]]
                  initialWorld) in
  let w' := snd (TouchSurface.dispatch DEFAULT_SETTINGS
                   (TouchEvent Tmove rect [mkTouch 7 0.5 0.5 80]) w) in
  cursorsRef w' = cursorsRef w /\ cursorsRef w' = JsMap.empty
  /\ sessionIdCounter w' = sessionIdCounter w.
Proof.
  intros rect w w'.
  destruct (proj2 (proj2 (orphan_move_is_noop DEFAULT_SETTINGS rect))
              initialWorld rect rect
              (mkTouch 7 0.2 0.3 0) (mkTouch 7 0.2 0.3 40) (mkTouch 7 0.5 0.5 80)
              eq_refl eq_refl) as (_ & Hmap & Hcounter).
  split; [exact Hmap | split; [ | exact Hcounter]].
  reflexivity.
Defined.

(** ** Uniqueness of session identifiers *)

Lemma NoDup_map_source {A B : Type} (g : A -> B) (l : list A) :
  NoDup (map g l) -> NoDup l.
Proof.
  induction l as [ | u rest IH]; simpl; intros Hnd; [constructor | ].
  apply NoDup_cons in Hnd as [Hu Hrest]. apply NoDup_cons.
  split; [ | now apply IH].
  intros Hin. apply Hu. apply list_elem_of_In, in_map. now apply list_elem_of_In.
Qed.

Lemma getNextSessionId_below (w : World) :
  sessionIdCounter w < 10000 ->
  fst (TuioService.getNextSessionId w) = sessionIdCounter w + 1.
Proof.
  intros Hc. unfold TuioService.getNextSessionId. cbn [fst].
  destruct (Z.gtb_spec (sessionIdCounter w + 1) 10000); [lia | reflexivity].
Qed.

Section RegistryInvariant.
Variables (w w' : World) (key : string) (c : TuioCursor).
Hypothesis Hinv : idsWithin w.

Lemma idsWithin_unchanged :
  sessionIdCounter w' = sessionIdCounter w ->
  cursorsRef w' = cursorsRef w ->
  idsWithin w'.
Proof. unfold idsWithin. intros -> ->. exact Hinv. Qed.

Lemma idsWithin_acquire :
  sessionIdCounter w < 10000 ->
  sessionIdCounter w' = sessionIdCounter w + 1 ->
  sessionId c = Z2num (sessionIdCounter w + 1) ->
  cursorsRef w' = JsMap.set key c (cursorsRef w) ->
  idsWithin w'.
Proof.
  destruct Hinv as (Hrange & Hall & Hnd).
  intros Hbelow Hcounter Hid Hmap. unfold idsWithin.
  assert (cursorId c = sessionIdCounter w + 1) as Hc.
  { unfold cursorId. rewrite Hid. apply num2Z_Z2num.
    assert (2 ^ 14 <= 2 ^ 53) by (apply Z.pow_le_mono_r; lia). lia. }
  rewrite Hcounter, Hmap. split; [lia | split].
  - apply JsMap_set_Forall; [ | lia].
    eapply List.Forall_impl; [ | exact Hall]. cbv beta. intros; lia.
  - apply JsMap_set_NoDup_image; [exact Hnd | ].
    intros Hin. apply in_map_iff in Hin as (u & Hu & Hin).
    pose proof (proj1 (List.Forall_forall _ _) Hall u Hin) as Hbound.
    cbv beta in Hbound. lia.
Qed.

Lemma idsWithin_update (existing : TuioCursor) :
  sessionIdCounter w' = sessionIdCounter w ->
  JsMap.get key (cursorsRef w) = Some existing ->
  sessionId c = sessionId existing ->
  cursorsRef w' = JsMap.set key c (cursorsRef w) ->
  idsWithin w'.
Proof.
  destruct Hinv as (Hrange & Hall & Hnd).
  intros Hcounter Hget Hid Hmap. unfold idsWithin.
  assert (cursorId c = cursorId existing) as Hc
    by (unfold cursorId; now rewrite Hid).
  rewrite Hcounter, Hmap. split; [exact Hrange | split].
  - apply JsMap_set_Forall; [exact Hall | ]. rewrite Hc.
    exact (proj1 (List.Forall_forall _ _) Hall existing
             (JsMap_get_In _ _ _ Hget)).
  - now rewrite (JsMap_set_same_image cursorId _ _ _ _ Hget Hc).
Qed.

Lemma idsWithin_delete :
  sessionIdCounter w' = sessionIdCounter w ->
  cursorsRef w' = JsMap.delete key (cursorsRef w) ->
  idsWithin w'.
Proof.
  destruct Hinv as (Hrange & Hall & Hnd).
  intros Hcounter Hmap. unfold idsWithin.
  rewrite Hcounter, Hmap. split; [exact Hrange | split].
  - now apply JsMap_delete_Forall.
  - now apply JsMap_delete_NoDup_image.
Qed.
End RegistryInvariant.

Lemma idsWithin_initial : idsWithin initialWorld.
Proof. unfold idsWithin. cbn. split; [lia | split; constructor]. Qed.

Lemma idsWithin_set_fseq (n : Z) (w : World) : idsWithin w -> idsWithin (set_fseq n w).
Proof. intros Hinv. now apply (idsWithin_unchanged w). Qed.

(** One touch keeps the invariant and advances the counter by what it
    acquires, as long as the counter stays within the ceiling. *)
Lemma processOneTouch_registry
    (settings : AppSettings) (rect : DOMRect) (type : TouchType)
    (touch : Touch) (w : World) :
  let w' := snd (TouchSurface.processOneTouch settings rect type touch w) in
  let acquired := match type with Tstart => 1 | _ => 0 end in
  idsWithin w ->
  sessionIdCounter w + acquired <= 10000 ->
  idsWithin w' /\ sessionIdCounter w' = sessionIdCounter w + acquired.
Proof.
  intros w' acquired Hinv Hroom.
  pose proof (processOneTouch_effect settings rect type touch w) as [_ Heff].
  cbv zeta in Heff. fold w' in Heff. subst acquired.
  destruct type.
  - destruct Heff as (Hcounter & c & Hid & Hmap).
    rewrite getNextSessionId_below in Hcounter, Hid by lia.
    split; [ | exact Hcounter].
    apply (idsWithin_acquire w w' (pretty (identifier touch)) c Hinv);
      try assumption; lia.
  - destruct Heff as (Hcounter & Hmove). split; [ | lia].
    destruct (JsMap.get (pretty (identifier touch)) (cursorsRef w))
      as [existing | ] eqn:Hget.
    + destruct Hmove as (c & Hid & Hmap).
      now apply (idsWithin_update w w' (pretty (identifier touch)) c Hinv existing).
    + now rewrite Hmove.
  - destruct Heff as (Hcounter & Hmap). split; [ | lia].
    now apply (idsWithin_delete w w' (pretty (identifier touch)) Hinv).
  - destruct Heff as (Hcounter & Hmap). split; [ | lia].
    now apply (idsWithin_delete w w' (pretty (identifier touch)) Hinv).
Qed.

Lemma forEach_touches_registry
    (settings : AppSettings) (rect : DOMRect) (type : TouchType)
    (touches : list Touch) (w : World) :
  let w' := snd (forEach touches (TouchSurface.processOneTouch settings rect type) w) in
  let acquired := Z.of_nat (eventAcquisitions (TouchEvent type rect touches)) in
  idsWithin w ->
  sessionIdCounter w + acquired <= 10000 ->
  idsWithin w' /\ sessionIdCounter w' = sessionIdCounter w + acquired.
Proof.
  cbv zeta. revert w. induction touches as [ | touch rest IH]; intros w Hinv Hroom.
  - cbn. split; [exact Hinv | destruct type; cbn; lia].
  - cbn [forEach]. unfold bind.
    pose proof (processOneTouch_registry settings rect type touch w Hinv) as Hone.
    cbv zeta in Hone.
    destruct (TouchSurface.processOneTouch settings rect type touch w) as [[] w1].
    cbn [snd] in Hone. cbv beta iota.
    assert (Z.of_nat (eventAcquisitions (TouchEvent type rect (touch :: rest)))
            = match type with Tstart => 1 | _ => 0 end
              + Z.of_nat (eventAcquisitions (TouchEvent type rect rest))) as Hsplit
      by (destruct type; cbn [eventAcquisitions length]; lia).
    rewrite Hsplit in *.
    assert (0 <= Z.of_nat (eventAcquisitions (TouchEvent type rect rest))) by lia.
    destruct Hone as [Hinv1 Hcounter1]; [destruct type; lia | ].
    destruct (IH w1 Hinv1) as [Hinv2 Hcounter2]; [lia | ].
    split; [exact Hinv2 | lia].
Qed.

(** Every event keeps the invariant and advances the counter by what it
    acquires, as long as the counter stays within the ceiling. *)
Lemma dispatch_registry (settings : AppSettings) (ev : Event) (w : World) :
  let w' := snd (TouchSurface.dispatch settings ev w) in
  idsWithin w ->
  sessionIdCounter w + Z.of_nat (eventAcquisitions ev) <= 10000 ->
  idsWithin w'
  /\ sessionIdCounter w' = sessionIdCounter w + Z.of_nat (eventAcquisitions ev).
Proof.
  intros w' Hinv Hroom. subst w'.
  destruct ev as [type rect touches | e rect | e rect | e | now].
  - rewrite dispatch_touch_world.
    destruct (forEach_touches_registry settings rect type touches w Hinv Hroom)
      as [Hinv' Hcounter].
    split; [now apply idsWithin_set_fseq | exact Hcounter].
  - cbn [TouchSurface.dispatch eventAcquisitions] in *.
    unfold TouchSurface.handleMouseDown.
    destruct (button e =? 0); cbn [negb]; [ | unfold ret; cbn; split; [exact Hinv | lia]].
    run_handler. cbn [snd].
    assert (sessionIdCounter w < 10000) as Hbelow by lia.
    pose proof (getNextSessionId_below w Hbelow) as Hnext.
    unfold TuioService.getNextSessionId in Hnext. cbn [fst] in Hnext.
    split; [ | cbn; rewrite Hnext; lia].
    eapply (idsWithin_acquire w _ "mouse-0" _ Hinv Hbelow); cbn.
    3: reflexivity.
    + exact Hnext.
    + cbn. now rewrite Hnext.
  - cbn [TouchSurface.dispatch eventAcquisitions] in *.
    unfold TouchSurface.handleMouseMove. run_handler.
    destruct (negb (truthy (mouseIdRef w))); [cbn; split; [exact Hinv | lia] | ].
    destruct (handlerNow e - lastMouseMoveTimeRef w <? TouchSurface.MOUSE_MOVE_THROTTLE)%float;
      [cbn; split; [exact Hinv | lia] | ].
    cbn [cursorsRef set_lastMouseMoveTimeRef].
    destruct (JsMap.get (default EmptyString (mouseIdRef w)) (cursorsRef w))
      as [existing | ] eqn:Hget; cbn [snd].
    + split; [ | cbn; lia].
      eapply (idsWithin_update w _ (default EmptyString (mouseIdRef w)) _ Hinv existing);
        [reflexivity | exact Hget | | reflexivity].
      apply updateCursorPhysics_sessionId.
    + split; [ | cbn; lia]. now apply (idsWithin_unchanged w).
  - cbn [TouchSurface.dispatch eventAcquisitions] in *.
    unfold TouchSurface.handleMouseUp. run_handler.
    destruct (negb (truthy (mouseIdRef w))); [cbn; split; [exact Hinv | lia] | ].
    cbn [snd]. split; [ | cbn; lia].
    now eapply (idsWithin_delete w _ (default EmptyString (mouseIdRef w)) Hinv).
  - cbn [TouchSurface.dispatch eventAcquisitions] in *.
    unfold TouchSurface.loop. run_handler.
    destruct (periodicUpdates settings && (0 <? JsMap.size (cursorsRef w))%nat);
      [ | cbn; split; [exact Hinv | lia]].
    destruct (TouchSurface.PERIODIC_UPDATE_INTERVAL <=? now - lastPeriodicUpdateRef w)%float;
      [ | cbn; split; [exact Hinv | lia]].
    cbn [snd]. split; [ | cbn; lia]. now apply (idsWithin_unchanged w).
Qed.

Lemma run_registry (settings : AppSettings) (evs : list Event) (w : World) :
  idsWithin w ->
  sessionIdCounter w + Z.of_nat (acquisitions evs) <= 10000 ->
  idsWithin (snd (TouchSurface.run settings evs w)).
Proof.
  revert w. induction evs as [ | ev rest IH]; intros w Hinv Hroom.
  - exact Hinv.
  - rewrite run_cons_world.
    change (acquisitions (ev :: rest))
      with (eventAcquisitions ev + acquisitions rest)%nat in Hroom.
    rewrite Nat2Z.inj_add in Hroom.
    destruct (dispatch_registry settings ev w Hinv) as [Hinv1 Hcounter1]; [lia | ].
    apply IH; [exact Hinv1 | lia].
Qed.

(** C3. After any sequence of events with at most 10000 session-identifier
    acquisitions in total, started from the fresh state, the cursors present
    in the map carry pairwise distinct session identifiers. *)
Theorem active_session_ids_distinct (settings : AppSettings) (evs : list Event) :
  (acquisitions evs <= 10000)%nat ->
  NoDup (map sessionId
           (JsMap.values (cursorsRef (snd (TouchSurface.run settings evs initialWorld))))).
Proof.
  intros Hbudget.
  assert (Z.of_nat (acquisitions evs) <= 10000) as Hroom.
  { change 10000 with (Z.of_nat 10000). now apply Nat2Z.inj_le. }
  destruct (run_registry settings evs initialWorld idsWithin_initial) as (_ & _ & Hnd).
  - cbn [sessionIdCounter initialWorld]. lia.
  - apply (NoDup_map_source num2Z). now rewrite map_map.
Qed.

(** Two touches and the mouse, started, moved, partly ended and restarted. *)
Lemma active_session_ids_distinct_sample :
  let rect := mkDOMRect 0 0 100 100 in
  let evs := [TouchEvent Tstart rect [mkTouch 7 20 30 0; mkTouch 8 50 50 0];
              TouchEvent Tmove rect [mkTouch 7 60 30 500];
              MouseDown (mkMouseEvent 0 10 10 600 600) rect;
              TouchEvent Tend rect [mkTouch 7 60 30 700];
              TouchEvent Tstart rect [mkTouch 9 5 5 800]] in
  NoDup (map sessionId
           (JsMap.values
              (cursorsRef (snd (TouchSurface.run DEFAULT_SETTINGS evs initialWorld)))))
  /\ map sessionId
       (JsMap.values
          (cursorsRef (snd (TouchSurface.run DEFAULT_SETTINGS evs initialWorld))))
     = [2; 3; 4]%float.
Proof.
  intros rect evs. split.
  - apply (active_session_ids_distinct DEFAULT_SETTINGS evs).
    apply Nat.leb_le. reflexivity.
  - vm_compute. reflexivity.
Defined.


(** * Further properties of the service and the handlers *)

(** ** Binary64 order *)

Lemma is_nan_Prim2SF (v : float) : is_nan v = false -> Prim2SF v <> S754_nan.
Proof.
  unfold is_nan. rewrite (FloatAxioms.eqb_spec v v). intros Hv Hnan. rewrite Hnan in Hv.
  discriminate Hv.
Qed.

Lemma Prim2SF_is_nan (v : float) : Prim2SF v = S754_nan -> is_nan v = true.
Proof. unfold is_nan. rewrite (FloatAxioms.eqb_spec v v). now intros ->. Qed.

Lemma SFcompare_defined (u v : spec_float) :
  u <> S754_nan -> v <> S754_nan -> exists c, SFcompare u v = Some c.
Proof.
  destruct u, v; simpl; intros Hu Hv; try congruence; eauto.
Qed.

Lemma SFcompare_Gt_swap (u v : spec_float) :
  SFcompare u v = Some Gt -> SFcompare v u = Some Lt.
Proof.
  destruct u as [su | su | | su mu eu], v as [sv | sv | | sv mv ev];
    simpl; try discriminate;
    try (destruct su; discriminate || reflexivity);
    try (destruct sv; discriminate || reflexivity);
    try (destruct su, sv; discriminate || reflexivity).
  pose proof (Pos.compare_cont_antisym mu mv Eq) as Hm. simpl in Hm.
  destruct su, sv; try discriminate; try reflexivity;
    rewrite (Z.compare_antisym eu ev), <- Hm;
    destruct (eu ?= ev); simpl; try discriminate; try reflexivity;
    destruct (Pos.compare_cont Eq mu mv); simpl;
    discriminate || reflexivity.
Qed.

Lemma ltb_leb (u v : float) : (u <? v)%float = true -> (u <=? v)%float = true.
Proof.
  rewrite ltb_spec, leb_spec. unfold SFltb, SFleb.
  now destruct (SFcompare (Prim2SF u) (Prim2SF v)) as [[ | | ] | ].
Qed.

(** On numbers, what is not below is at least. *)
Lemma not_ltb_leb (u v : float) :
  is_nan u = false -> is_nan v = false ->
  (u <? v)%float = false -> (v <=? u)%float = true.
Proof.
  intros Hu Hv. apply is_nan_Prim2SF in Hu, Hv.
  rewrite ltb_spec, leb_spec. unfold SFltb, SFleb.
  destruct (SFcompare_defined _ _ Hv Hu) as [c Hc]. rewrite Hc.
  destruct c; try reflexivity.
  rewrite (SFcompare_Gt_swap _ _ Hc). discriminate.
Qed.

(** The clamp returns NaN on NaN and a number of [0, 1] otherwise. *)
Lemma clampUnit_range (v : float) :
  (is_nan v = true -> clampUnit v = nan)
  /\ (is_nan v = false ->
      is_nan (clampUnit v) = false
      /\ (0 <=? clampUnit v)%float = true /\ (clampUnit v <=? 1)%float = true).
Proof.
  unfold clampUnit. split.
  - intros Hv. unfold Math_min. rewrite Hv, orb_true_r. reflexivity.
  - intros Hv.
    assert (is_nan (Math_min 1 v) = false /\ (Math_min 1 v <=? 1)%float = true)
      as [Hm Hle].
    { unfold Math_min. rewrite Hv. cbn [orb is_nan].
      change (is_nan 1) with false. cbn [orb].
      destruct (1 <? v)%float eqn:Hlt; [split; reflexivity | ].
      assert ((v <=? 1)%float = true) as Hv1
        by (apply not_ltb_leb; [reflexivity | exact Hv | exact Hlt]).
      destruct (v <? 1)%float; [now split | ].
      change (get_sign 1) with false. now split. }
    unfold Math_max. rewrite Hm. change (is_nan 0) with false. cbn [orb].
    destruct (0 <? Math_min 1 v)%float eqn:Hlt.
    + repeat split; [exact Hm | now apply ltb_leb | exact Hle].
    + destruct (Math_min 1 v <? 0)%float; [repeat split | ].
      change (get_sign 0) with false. repeat split.
Qed.

Lemma clampUnit_unitOrNaN (v : float) : unitOrNaN (clampUnit v) = true.
Proof.
  unfold unitOrNaN. destruct (is_nan v) eqn:Hv.
  - now rewrite (proj1 (clampUnit_range v) Hv).
  - destruct (proj2 (clampUnit_range v) Hv) as (_ & H0 & H1).
    rewrite H0, H1. apply orb_true_r.
Qed.

(** ** Lookup in the cursor map *)

Section JsMapLookup.
Context {V : Type}.
Implicit Types (m : JsMap.t V) (k : string) (v : V).

Lemma JsMap_get_set_eq k v m : JsMap.get k (JsMap.set k v m) = Some v.
Proof.
  induction m as [ | [k' v'] rest IH]; simpl.
  - now rewrite String.eqb_refl.
  - destruct (String.eqb k' k) eqn:Hk; simpl; now rewrite Hk.
Qed.

Lemma JsMap_get_set_ne k k' v m :
  k' <> k -> JsMap.get k' (JsMap.set k v m) = JsMap.get k' m.
Proof.
  intros Hne. induction m as [ | [k0 v0] rest IH]; simpl.
  - apply String.eqb_neq in Hne. rewrite String.eqb_sym. now rewrite Hne.
  - destruct (String.eqb k0 k) eqn:Hk; simpl.
    + apply String.eqb_eq in Hk. subst k0.
      assert (String.eqb k k' = false) as ->
        by (apply String.eqb_neq; congruence).
      reflexivity.
    + now rewrite IH.
Qed.

Lemma JsMap_get_delete_ne k k' m :
  k' <> k -> JsMap.get k' (JsMap.delete k m) = JsMap.get k' m.
Proof.
  intros Hne. induction m as [ | [k0 v0] rest IH]; simpl; [reflexivity | ].
  destruct (String.eqb k0 k) eqn:Hk; simpl.
  - apply String.eqb_eq in Hk. subst k0.
    assert (String.eqb k k' = false) as ->
      by (apply String.eqb_neq; congruence).
    exact IH.
  - now rewrite IH.
Qed.

Lemma JsMap_delete_absent k m : JsMap.get k m = None -> JsMap.delete k m = m.
Proof.
  induction m as [ | [k0 v0] rest IH]; simpl; [reflexivity | ].
  destruct (String.eqb k0 k); [discriminate | ].
  intros Hget. now rewrite IH.
Qed.

Lemma JsMap_set_absent k v m :
  JsMap.get k m = None -> JsMap.set k v m = m ++ [(k, v)].
Proof.
  induction m as [ | [k0 v0] rest IH]; simpl; [reflexivity | ].
  destruct (String.eqb k0 k); [discriminate | ].
  intros Hget. now rewrite IH.
Qed.

Lemma JsMap_delete_set_absent k v m :
  JsMap.get k m = None -> JsMap.delete k (JsMap.set k v m) = m.
Proof.
  induction m as [ | [k0 v0] rest IH]; simpl.
  - now rewrite String.eqb_refl.
  - destruct (String.eqb k0 k) eqn:Hk; [discriminate | ].
    intros Hget. simpl. now rewrite Hk, IH.
Qed.

Lemma JsMap_keys_set_present k v old m :
  JsMap.get k m = Some old -> JsMap.keys (JsMap.set k v m) = JsMap.keys m.
Proof.
  unfold JsMap.keys.
  induction m as [ | [k0 v0] rest IH]; simpl; [discriminate | ].
  destruct (String.eqb k0 k); simpl; [reflexivity | ].
  intros Hget. now rewrite IH.
Qed.

Lemma JsMap_size_set k v m :
  JsMap.size (JsMap.set k v m)
  = match JsMap.get k m with
    | Some _ => JsMap.size m
    | None => S (JsMap.size m)
    end.
Proof.
  unfold JsMap.size.
  induction m as [ | [k0 v0] rest IH]; simpl; [reflexivity | ].
  destruct (String.eqb k0 k); simpl; [reflexivity | ].
  rewrite IH. now destruct (JsMap.get k rest).
Qed.
End JsMapLookup.

(** ** The transitions of one touch *)

Lemma processOneTouch_start
    (settings : AppSettings) (rect : DOMRect) (touch : Touch) (w : World) :
  let id := fst (TuioService.getNextSessionId w) in
  let nx := clampUnit ((touchClientX touch - left rect) / width rect) in
  let ny := clampUnit ((touchClientY touch - top rect) / height rect) in
  let c := {| sessionId := Z2num id;
              x := nx;
              y := if invertY settings then (1 - ny)%float else ny;
              vx := 0; vy := 0; a := 0;
              lastTime := touchNow touch |} in
  snd (TouchSurface.processOneTouch settings rect Tstart touch w)
  = set_cursorsRef (JsMap.set (pretty (identifier touch)) c (cursorsRef w))
      (set_sessionIdCounter id w).
Proof. reflexivity. Qed.

Lemma processOneTouch_move
    (settings : AppSettings) (rect : DOMRect) (touch : Touch) (w : World)
    (existing : TuioCursor) :
  JsMap.get (pretty (identifier touch)) (cursorsRef w) = Some existing ->
  let nx := clampUnit ((touchClientX touch - left rect) / width rect) in
  let ny := clampUnit ((touchClientY touch - top rect) / height rect) in
  let updated :=
    TuioService.updateCursorPhysics existing nx
      (if invertY settings then (1 - ny)%float else ny) (touchNow touch) in
  snd (TouchSurface.processOneTouch settings rect Tmove touch w)
  = set_cursorsRef (JsMap.set (pretty (identifier touch)) updated (cursorsRef w)) w.
Proof.
  intros Hget. cbv zeta. unfold TouchSurface.processOneTouch. run_handler.
  now rewrite Hget.
Qed.

Lemma processOneTouch_end
    (settings : AppSettings) (rect : DOMRect) (cancel : bool) (touch : Touch)
    (w : World) :
  snd (TouchSurface.processOneTouch settings rect
         (if cancel then Tcancel else Tend) touch w)
  = set_cursorsRef (JsMap.delete (pretty (identifier touch)) (cursorsRef w)) w.
Proof. now destruct cancel. Qed.

Lemma dispatch_one_touch_world
    (settings : AppSettings) (type : TouchType) (rect : DOMRect)
    (touch : Touch) (w : World) :
  snd (TouchSurface.dispatch settings (TouchEvent type rect [touch]) w)
  = set_fseq (Z.rem (fseq w + 1) 2147483648)
      (snd (TouchSurface.processOneTouch settings rect type touch w)).
Proof. now rewrite dispatch_touch_world, forEach_one_touch. Qed.

Lemma pretty_Z_ne (i j : Z) : i <> j -> pretty i <> pretty j.
Proof. intros Hne Heq. apply Hne. now apply (inj pretty). Qed.

(** X1 (start). A touch start stores, under the touch's identifier, a fresh
    cursor at rest: the session identifier just acquired, zero velocity and
    acceleration, the time of the event, and the position relative to the
    bounding box, clamped to [0, 1] and mirrored in [y] when [invertY] is
    on.  It does not
    look the identifier up first: on an active identifier the cursor is
    replaced (the map does not grow), on an absent one the map grows by one.
    Every other entry is untouched. *)
Theorem touch_start_registers
    (settings : AppSettings) (rect : DOMRect) (touch : Touch) (w : World) :
  let key := pretty (identifier touch) in
  let w' := snd (TouchSurface.dispatch settings (TouchEvent Tstart rect [touch]) w) in
  (exists c,
      JsMap.get key (cursorsRef w') = Some c
      /\ sessionId c = Z2num (sessionIdCounter w')
      /\ vx c = 0%float /\ vy c = 0%float /\ a c = 0%float
      /\ lastTime c = touchNow touch
      /\ x c = clampUnit ((touchClientX touch - left rect) / width rect)
      /\ y c = (let ny := clampUnit ((touchClientY touch - top rect) / height rect) in
               if invertY settings then (1 - ny)%float else ny)
      /\ coordinatesClamped settings c)
  /\ sessionIdCounter w' = fst (TuioService.getNextSessionId w)
  /\ (forall k, k <> key ->
        JsMap.get k (cursorsRef w') = JsMap.get k (cursorsRef w))
  /\ (forall j, j <> identifier touch ->
        JsMap.get (pretty j) (cursorsRef w') = JsMap.get (pretty j) (cursorsRef w))
  /\ JsMap.size (cursorsRef w')
     = match JsMap.get key (cursorsRef w) with
       | Some _ => JsMap.size (cursorsRef w)
       | None => S (JsMap.size (cursorsRef w))
       end.
Proof.
  intros key w'. subst w'.
  rewrite dispatch_one_touch_world, processOneTouch_start.
  cbn [cursorsRef sessionIdCounter set_fseq set_cursorsRef set_sessionIdCounter].
  fold key. split; [ | split; [reflexivity | split; [ | split]]].
  - eexists. split; [apply JsMap_get_set_eq | ]. cbn.
    repeat split; try reflexivity; try apply clampUnit_unitOrNaN.
    intros ->. apply clampUnit_unitOrNaN.
  - intros k Hk. now apply JsMap_get_set_ne.
  - intros j Hj. apply JsMap_get_set_ne. now apply pretty_Z_ne.
  - apply JsMap_size_set.
Qed.

(** X2 (end, cancel). A touch end or cancel removes the entry of the touch's
    identifier and nothing else, and acquires nothing; on an identifier that
    is not active the map is left as it is.  Either way a frame is built
    and the frame counter advances. *)
Theorem touch_end_releases
    (settings : AppSettings) (rect : DOMRect) (cancel : bool) (touch : Touch)
    (w : World) :
  let key := pretty (identifier touch) in
  let result :=
    TouchSurface.dispatch settings
      (TouchEvent (if cancel then Tcancel else Tend) rect [touch]) w in
  JsMap.get key (cursorsRef (snd result)) = None
  /\ (forall k, k <> key ->
        JsMap.get k (cursorsRef (snd result)) = JsMap.get k (cursorsRef w))
  /\ (JsMap.get key (cursorsRef w) = None ->
      cursorsRef (snd result) = cursorsRef w)
  /\ sessionIdCounter (snd result) = sessionIdCounter w
  /\ fst result
     = Some (frameLayout (JsMap.values (cursorsRef (snd result)))
                         (Z.rem (fseq w + 1) 2147483648))
  /\ fseq (snd result) = Z.rem (fseq w + 1) 2147483648.
Proof.
  intros key result.
  assert (snd result
          = set_fseq (Z.rem (fseq w + 1) 2147483648)
              (set_cursorsRef (JsMap.delete key (cursorsRef w)) w)) as Hw.
  { subst result. now rewrite dispatch_one_touch_world, processOneTouch_end. }
  assert (fst result
          = Some (frameLayout (JsMap.values (cursorsRef (snd result)))
                              (Z.rem (fseq w + 1) 2147483648))) as Hframe.
  { subst result. cbn [TouchSurface.dispatch]. unfold bind, ret.
    rewrite processTouch_frame. reflexivity. }
  rewrite Hw in *.
  cbn [cursorsRef sessionIdCounter fseq set_fseq set_cursorsRef] in *.
  split; [apply JsMap_get_delete | ].
  split; [intros k Hk; now apply JsMap_get_delete_ne | ].
  split; [apply JsMap_delete_absent | ].
  split; [reflexivity | ].
  split; [exact Hframe | reflexivity].
Qed.

Lemma forEach_move_registry
    (settings : AppSettings) (rect : DOMRect) (touches : list Touch) (w : World) :
  let w' := snd (forEach touches (TouchSurface.processOneTouch settings rect Tmove) w) in
  JsMap.keys (cursorsRef w') = JsMap.keys (cursorsRef w)
  /\ map sessionId (JsMap.values (cursorsRef w'))
     = map sessionId (JsMap.values (cursorsRef w))
  /\ sessionIdCounter w' = sessionIdCounter w.
Proof.
  cbv zeta. revert w. induction touches as [ | touch rest IH]; intros w.
  - repeat split.
  - cbn [forEach]. unfold bind.
    pose proof (processOneTouch_effect settings rect Tmove touch w)
      as (_ & Hcounter & Hmove).
    cbv zeta in Hcounter, Hmove.
    destruct (TouchSurface.processOneTouch settings rect Tmove touch w) as [[] w1].
    cbn [snd] in *. cbv beta iota.
    destruct (IH w1) as (Hkeys & Hids & Hc).
    rewrite Hkeys, Hids, Hc, Hcounter.
    destruct (JsMap.get (pretty (identifier touch)) (cursorsRef w))
      as [existing | ] eqn:Hget.
    + destruct Hmove as (c & Hid & ->).
      rewrite (JsMap_keys_set_present _ _ _ _ Hget).
      now rewrite (JsMap_set_same_image sessionId _ _ _ _ Hget Hid).
    + now rewrite Hmove.
Qed.

(** X3 (move keeps the registry). A touch move, of any number of touches,
    active or not, leaves the identifiers of the map, their order, the
    session identifier of every entry, and the session counter as they
    are: the alive list of the frame it builds is the one before the
    event. *)
Theorem touch_move_keeps_registry
    (settings : AppSettings) (rect : DOMRect) (touches : list Touch) (w : World) :
  let w' := snd (TouchSurface.dispatch settings (TouchEvent Tmove rect touches) w) in
  JsMap.keys (cursorsRef w') = JsMap.keys (cursorsRef w)
  /\ map sessionId (JsMap.values (cursorsRef w'))
     = map sessionId (JsMap.values (cursorsRef w))
  /\ JsMap.size (cursorsRef w') = JsMap.size (cursorsRef w)
  /\ sessionIdCounter w' = sessionIdCounter w.
Proof.
  intros w'. subst w'. rewrite dispatch_touch_world.
  cbn [cursorsRef sessionIdCounter set_fseq].
  destruct (forEach_move_registry settings rect touches w) as (Hkeys & Hids & Hc).
  split; [exact Hkeys | split; [exact Hids | split; [ | exact Hc]]].
  apply (f_equal (@length string)) in Hkeys.
  unfold JsMap.keys in Hkeys. rewrite !length_map in Hkeys. exact Hkeys.
Qed.

(** X4 (move of an active touch). The move of an active identifier replaces
    its entry by what the estimator returns for the clamped position and
    the time of the event, and changes no other entry. *)
Theorem touch_move_updates
    (settings : AppSettings) (rect : DOMRect) (touch : Touch) (w : World)
    (existing : TuioCursor) :
  JsMap.get (pretty (identifier touch)) (cursorsRef w) = Some existing ->
  let key := pretty (identifier touch) in
  let w' := snd (TouchSurface.dispatch settings (TouchEvent Tmove rect [touch]) w) in
  let nx := clampUnit ((touchClientX touch - left rect) / width rect) in
  let ny := clampUnit ((touchClientY touch - top rect) / height rect) in
  JsMap.get key (cursorsRef w')
  = Some (TuioService.updateCursorPhysics existing nx
            (if invertY settings then (1 - ny)%float else ny) (touchNow touch))
  /\ (forall k, k <> key ->
        JsMap.get k (cursorsRef w') = JsMap.get k (cursorsRef w)).
Proof.
  intros Hget key w' nx ny. subst w'.
  rewrite dispatch_one_touch_world, (processOneTouch_move _ _ _ _ _ Hget).
  cbn [cursorsRef set_fseq set_cursorsRef]. fold key nx ny.
  split; [apply JsMap_get_set_eq | ].
  intros k Hk. now apply JsMap_get_set_ne.
Qed.

(** A touch that starts at (0.2, 0.3) and moves to (0.5, 0.5) one second
    later. *)
Lemma touch_move_updates_sample :
  let rect := mkDOMRect 0 0 1 1 in
  let w := snd (TouchSurface.dispatch DEFAULT_SETTINGS
                  (TouchEvent Tstart rect [mkTouch 7 0.2 0.3 0]) initialWorld) in
  let w' := snd (TouchSurface.dispatch DEFAULT_SETTINGS
                   (TouchEvent Tmove rect [mkTouch 7 0.5 0.5 1000]) w) in
  exists c, JsMap.get "7" (cursorsRef w') = Some c
            /\ x c = 0.5%float /\ y c = 0.5%float /\ lastTime c = 1000%float
            /\ sessionId c = 1%float.
Proof.
  intros rect w w'.
  destruct (touch_move_updates DEFAULT_SETTINGS rect (mkTouch 7 0.5 0.5 1000) w
              (mkTuioCursor 1 0.2 0.3 0 0 0 0) eq_refl) as [Hget _].
  eexists. split; [exact Hget | ]. repeat split; reflexivity.
Defined.

(** ** The mouse *)

(** X5 (throttle). A mouse move that arrives less than 16 ms after the last
    accepted one is dropped before anything is touched: no frame is built
    and the world, the cursor's position included, is exactly as before. *)
Theorem mouse_move_throttled
    (settings : AppSettings) (e : MouseEvent) (rect : DOMRect) (w : World) :
  (handlerNow e - lastMouseMoveTimeRef w <? 16)%float = true ->
  TouchSurface.dispatch settings (MouseMove e rect) w = (None, w).
Proof.
  intros Hsoon. cbn [TouchSurface.dispatch].
  unfold TouchSurface.handleMouseMove. run_handler.
  destruct (negb (truthy (mouseIdRef w))); [reflexivity | ].
  unfold TouchSurface.MOUSE_MOVE_THROTTLE. now rewrite Hsoon.
Qed.

(** A press, then a move 10 ms after the page's time origin: the cursor
    stays where the press put it. *)
Lemma mouse_move_throttled_sample :
  let rect := mkDOMRect 0 0 100 100 in
  let w := snd (TouchSurface.dispatch DEFAULT_SETTINGS
                  (MouseDown (mkMouseEvent 0 10 10 5 5) rect) initialWorld) in
  TouchSurface.dispatch DEFAULT_SETTINGS
    (MouseMove (mkMouseEvent 0 90 90 10 10) rect) w = (None, w)
  /\ exists c, JsMap.get "mouse-0" (cursorsRef w) = Some c /\ x c = 0.1%float.
Proof.
  intros rect w. split.
  - exact (mouse_move_throttled DEFAULT_SETTINGS (mkMouseEvent 0 90 90 10 10)
             rect w eq_refl).
  - eexists. split; reflexivity.
Defined.

(** X6 (mouse outside a drag). A press of another button than the left one,
    and a move or a release while no left-button press is pending, build no
    frame and change nothing. *)
Theorem mouse_outside_drag_ignored
    (settings : AppSettings) (e : MouseEvent) (rect : DOMRect) (w : World) :
  (button e <> 0 ->
   TouchSurface.dispatch settings (MouseDown e rect) w = (None, w))
  /\ (mouseIdRef w = None ->
      TouchSurface.dispatch settings (MouseMove e rect) w = (None, w)
      /\ TouchSurface.dispatch settings (MouseUp e) w = (None, w)).
Proof.
  split.
  - intros Hbutton. cbn [TouchSurface.dispatch].
    unfold TouchSurface.handleMouseDown.
    apply Z.eqb_neq in Hbutton. now rewrite Hbutton.
  - intros Hnone. cbn [TouchSurface.dispatch].
    unfold TouchSurface.handleMouseMove, TouchSurface.handleMouseUp.
    run_handler. rewrite Hnone. split; reflexivity.
Qed.

Lemma mouse_outside_drag_ignored_sample :
  let rect := mkDOMRect 0 0 100 100 in
  TouchSurface.dispatch DEFAULT_SETTINGS
    (MouseDown (mkMouseEvent 2 10 10 50 50) rect) initialWorld = (None, initialWorld)
  /\ TouchSurface.dispatch DEFAULT_SETTINGS
       (MouseMove (mkMouseEvent 0 10 10 50 50) rect) initialWorld
     = (None, initialWorld)
  /\ TouchSurface.dispatch DEFAULT_SETTINGS
       (MouseUp (mkMouseEvent 0 10 10 50 50)) initialWorld = (None, initialWorld).
Proof.
  intros rect.
  destruct (mouse_outside_drag_ignored DEFAULT_SETTINGS (mkMouseEvent 2 10 10 50 50)
              rect initialWorld) as [Hdown _].
  destruct (mouse_outside_drag_ignored DEFAULT_SETTINGS (mkMouseEvent 0 10 10 50 50)
              rect initialWorld) as [_ Hidle].
  split; [apply Hdown; discriminate | apply Hidle; reflexivity].
Defined.

(** A run is the first event, then the run of the rest. *)
Lemma run_cons (settings : AppSettings) (ev : Event) (rest : list Event)
    (w : World) :
  TouchSurface.run settings (ev :: rest) w
  = (match fst (TouchSurface.dispatch settings ev w) with
     | Some ms =>
         ms :: fst (TouchSurface.run settings rest
                      (snd (TouchSurface.dispatch settings ev w)))
     | None =>
         fst (TouchSurface.run settings rest
                (snd (TouchSurface.dispatch settings ev w)))
     end,
     snd (TouchSurface.run settings rest
            (snd (TouchSurface.dispatch settings ev w)))).
Proof.
  cbn [TouchSurface.run]. unfold bind, ret.
  destruct (TouchSurface.dispatch settings ev w) as [frame w1]. cbn [fst snd].
  now destruct (TouchSurface.run settings rest w1) as [frames w2].
Qed.

Lemma handleMouseDown_world
    (settings : AppSettings) (e : MouseEvent) (rect : DOMRect) (w : World) :
  button e = 0 ->
  let id := fst (TuioService.getNextSessionId w) in
  let nx := clampUnit ((clientX e - left rect) / width rect) in
  let ny := clampUnit ((clientY e - top rect) / height rect) in
  let c := {| sessionId := Z2num id;
              x := nx;
              y := if invertY settings then (1 - ny)%float else ny;
              vx := 0; vy := 0; a := 0;
              lastTime := serviceNow e |} in
  let w1 := set_cursorsRef (JsMap.set "mouse-0" c (cursorsRef w))
              (set_sessionIdCounter id (set_mouseIdRef (Some "mouse-0") w)) in
  TouchSurface.dispatch settings (MouseDown e rect) w
  = (Some (frameLayout (JsMap.values (cursorsRef w1))
                       (Z.rem (fseq w + 1) 2147483648)),
     set_fseq (Z.rem (fseq w + 1) 2147483648) w1).
Proof.
  intros Hbutton. cbv zeta. cbn [TouchSurface.dispatch].
  unfold TouchSurface.handleMouseDown. rewrite Hbutton. cbn [Z.eqb negb].
  run_handler. rewrite pushes_layout. reflexivity.
Qed.

Lemma handleMouseUp_world (e : MouseEvent) (settings : AppSettings) (w : World)
    (mouseId : string) :
  mouseIdRef w = Some mouseId -> mouseId <> EmptyString ->
  let w1 := set_mouseIdRef None
              (set_cursorsRef (JsMap.delete mouseId (cursorsRef w)) w) in
  TouchSurface.dispatch settings (MouseUp e) w
  = (Some (frameLayout (JsMap.values (cursorsRef w1))
                       (Z.rem (fseq w + 1) 2147483648)),
     set_fseq (Z.rem (fseq w + 1) 2147483648) w1).
Proof.
  intros Hid Hne. cbv zeta. cbn [TouchSurface.dispatch].
  unfold TouchSurface.handleMouseUp. run_handler. rewrite Hid.
  cbn [truthy default]. apply String.eqb_neq in Hne. rewrite Hne. cbn [negb].
  rewrite pushes_layout. reflexivity.
Qed.

(** X7 (press and release). A left-button press followed by the release
    gives back the cursor map of before the press and clears the pending
    press; the session identifier the press acquired is spent, and two
    frames have been built.  Between the two, the mouse cursor is in the
    map under ["mouse-0"], at rest. *)
Theorem mouse_press_release
    (settings : AppSettings) (down up : MouseEvent) (rect : DOMRect) (w : World) :
  button down = 0 ->
  JsMap.get "mouse-0" (cursorsRef w) = None ->
  let pressed := snd (TouchSurface.dispatch settings (MouseDown down rect) w) in
  let released := TouchSurface.run settings [MouseDown down rect; MouseUp up] w in
  (exists c, JsMap.get "mouse-0" (cursorsRef pressed) = Some c
             /\ sessionId c = Z2num (sessionIdCounter pressed)
             /\ vx c = 0%float /\ vy c = 0%float /\ a c = 0%float
             /\ coordinatesClamped settings c)
  /\ mouseIdRef pressed = Some "mouse-0"
  /\ cursorsRef (snd released) = cursorsRef w
  /\ mouseIdRef (snd released) = None
  /\ sessionIdCounter (snd released) = fst (TuioService.getNextSessionId w)
  /\ length (fst released) = 2%nat.
Proof.
  intros Hbutton Habsent pressed released.
  pose proof (handleMouseDown_world settings down rect w Hbutton) as Hdown.
  cbv zeta in Hdown.
  subst pressed released. rewrite !run_cons. cbn [TouchSurface.run ret fst snd].
  rewrite Hdown. cbn [fst snd].
  rewrite (handleMouseUp_world up settings _ "mouse-0");
    [ | reflexivity | discriminate].
  cbn [fst snd cursorsRef mouseIdRef sessionIdCounter set_fseq set_cursorsRef
       set_sessionIdCounter set_mouseIdRef length].
  split; [ | split; [reflexivity | split; [ | repeat split]]].
  - eexists. split; [apply JsMap_get_set_eq | ]. cbn.
    repeat split; try reflexivity; try apply clampUnit_unitOrNaN.
    intros ->. apply clampUnit_unitOrNaN.
  - now apply JsMap_delete_set_absent.
Qed.

Lemma mouse_press_release_sample :
  let rect := mkDOMRect 0 0 100 100 in
  let released :=
    TouchSurface.run DEFAULT_SETTINGS
      [MouseDown (mkMouseEvent 0 10 10 5 5) rect; MouseUp (mkMouseEvent 0 10 10 9 9)]
      initialWorld in
  cursorsRef (snd released) = JsMap.empty
  /\ sessionIdCounter (snd released) = 1
  /\ length (fst released) = 2%nat.
Proof.
  intros rect released.
  destruct (mouse_press_release DEFAULT_SETTINGS (mkMouseEvent 0 10 10 5 5)
              (mkMouseEvent 0 10 10 9 9) rect initialWorld eq_refl eq_refl)
    as (_ & _ & Hmap & _ & Hcounter & Hframes).
  split; [exact Hmap | split; [exact Hcounter | exact Hframes]].
Defined.

(** ** The periodic frame *)

Lemma loop_world (settings : AppSettings) (now : float) (w : World) :
  TouchSurface.dispatch settings (AnimationFrame now) w
  = if periodicUpdates settings && (0 <? JsMap.size (cursorsRef w))%nat then
      if (33 <=? now - lastPeriodicUpdateRef w)%float then
        (Some (frameLayout (JsMap.values (cursorsRef w))
                           (Z.rem (fseq w + 1) 2147483648)),
         set_lastPeriodicUpdateRef now
           (set_fseq (Z.rem (fseq w + 1) 2147483648) w))
      else (None, w)
    else (None, w).
Proof.
  cbn [TouchSurface.dispatch]. unfold TouchSurface.loop. run_handler.
  destruct (periodicUpdates settings && (0 <? JsMap.size (cursorsRef w))%nat);
    [ | reflexivity].
  unfold TouchSurface.PERIODIC_UPDATE_INTERVAL.
  destruct (33 <=? now - lastPeriodicUpdateRef w)%float; [ | reflexivity].
  rewrite pushes_layout. reflexivity.
Qed.

(** X8 (heartbeat gating). An animation frame never changes the cursor map,
    the session counter or the pending mouse press.  It builds a frame
    exactly when periodic updates are on, the map is not empty and at least
    33 ms have passed since the last periodic frame; otherwise the world is
    left as it is.  The frame built is the layout over the unchanged map,
    and its time becomes the time of the last periodic frame. *)
Theorem heartbeat_gating (settings : AppSettings) (now : float) (w : World) :
  let result := TouchSurface.dispatch settings (AnimationFrame now) w in
  let due := periodicUpdates settings
             && (0 <? JsMap.size (cursorsRef w))%nat
             && (33 <=? now - lastPeriodicUpdateRef w)%float in
  cursorsRef (snd result) = cursorsRef w
  /\ sessionIdCounter (snd result) = sessionIdCounter w
  /\ mouseIdRef (snd result) = mouseIdRef w
  /\ result
     = if due then
         (Some (frameLayout (JsMap.values (cursorsRef w))
                            (Z.rem (fseq w + 1) 2147483648)),
          set_lastPeriodicUpdateRef now
            (set_fseq (Z.rem (fseq w + 1) 2147483648) w))
       else (None, w).
Proof.
  intros result due. subst result due. rewrite loop_world.
  destruct (periodicUpdates settings && (0 <? JsMap.size (cursorsRef w))%nat);
    cbn [andb]; [ | repeat split].
  destruct (33 <=? now - lastPeriodicUpdateRef w)%float; repeat split.
Qed.



(** ** Frames and the frame counter *)

Lemma dispatch_frame
    (settings : AppSettings) (ev : Event) (w w' : World)
    (frame : list OSCMessage) :
  TouchSurface.dispatch settings ev w = (Some frame, w') ->
  frame = frameLayout (JsMap.values (cursorsRef w')) (fseq w')
  /\ fseq w' = Z.rem (fseq w + 1) 2147483648.
Proof.
  intros Hev.
  destruct ev as [type rect touches | e rect | e rect | e | now];
    cbn [TouchSurface.dispatch] in Hev.
  - unfold bind in Hev. rewrite processTouch_frame in Hev.
    injection Hev as <- <-. split; reflexivity.
  - unfold TouchSurface.handleMouseDown in Hev.
    destruct (negb (button e =? 0)); [discriminate | ].
    run_handler in Hev. rewrite pushes_layout in Hev.
    injection Hev as <- <-. split; reflexivity.
  - unfold TouchSurface.handleMouseMove in Hev. run_handler in Hev.
    destruct (negb (truthy (mouseIdRef w))); [discriminate | ].
    destruct (handlerNow e - lastMouseMoveTimeRef w <? TouchSurface.MOUSE_MOVE_THROTTLE)%float;
      [discriminate | ].
    cbn [cursorsRef set_lastMouseMoveTimeRef] in Hev.
    destruct (JsMap.get (default EmptyString (mouseIdRef w)) (cursorsRef w));
      [ | discriminate].
    rewrite pushes_layout in Hev.
    injection Hev as <- <-. split; reflexivity.
  - unfold TouchSurface.handleMouseUp in Hev. run_handler in Hev.
    destruct (negb (truthy (mouseIdRef w))); [discriminate | ].
    rewrite pushes_layout in Hev.
    injection Hev as <- <-. split; reflexivity.
  - fold (TouchSurface.dispatch settings (AnimationFrame now)) in Hev.
    rewrite loop_world in Hev.
    destruct (periodicUpdates settings && (0 <? JsMap.size (cursorsRef w))%nat);
      [ | discriminate].
    destruct (33 <=? now - lastPeriodicUpdateRef w)%float; [ | discriminate].
    injection Hev as <- <-. split; reflexivity.
Qed.

(** An event that builds no frame leaves the counters, the cursor map and
    the pending press as they are. *)
Lemma dispatch_no_frame
    (settings : AppSettings) (ev : Event) (w w' : World) :
  TouchSurface.dispatch settings ev w = (None, w') ->
  fseq w' = fseq w /\ sessionIdCounter w' = sessionIdCounter w
  /\ cursorsRef w' = cursorsRef w /\ mouseIdRef w' = mouseIdRef w.
Proof.
  intros Hev.
  destruct ev as [type rect touches | e rect | e rect | e | now];
    cbn [TouchSurface.dispatch] in Hev.
  - unfold bind, ret in Hev.
    destruct (TouchSurface.processTouch settings rect touches type w).
    discriminate Hev.
  - unfold TouchSurface.handleMouseDown in Hev.
    destruct (negb (button e =? 0)).
    + injection Hev as <-. repeat split.
    + run_handler in Hev. discriminate Hev.
  - unfold TouchSurface.handleMouseMove in Hev. run_handler in Hev.
    destruct (negb (truthy (mouseIdRef w)));
      [injection Hev as <-; repeat split | ].
    destruct (handlerNow e - lastMouseMoveTimeRef w <? TouchSurface.MOUSE_MOVE_THROTTLE)%float;
      [injection Hev as <-; repeat split | ].
    cbn [cursorsRef set_lastMouseMoveTimeRef] in Hev.
    destruct (JsMap.get (default EmptyString (mouseIdRef w)) (cursorsRef w));
      [discriminate Hev | ].
    injection Hev as <-. repeat split.
  - unfold TouchSurface.handleMouseUp in Hev. run_handler in Hev.
    destruct (negb (truthy (mouseIdRef w)));
      [injection Hev as <-; repeat split | discriminate Hev].
  - fold (TouchSurface.dispatch settings (AnimationFrame now)) in Hev.
    rewrite loop_world in Hev.
    destruct (periodicUpdates settings && (0 <? JsMap.size (cursorsRef w))%nat);
      [ | injection Hev as <-; repeat split].
    destruct (33 <=? now - lastPeriodicUpdateRef w)%float;
      [discriminate Hev | injection Hev as <-; repeat split].
Qed.

Lemma frameLayout_last (cs : list TuioCursor) (n : Z) :
  last (frameLayout cs n) = Some (fseqMessage n).
Proof.
  unfold frameLayout. rewrite !app_assoc. apply last_snoc.
Qed.

(** X10 (frames are numbered consecutively). Over any sequence of events,
    started with the frame counter in its range, the frames built carry
    consecutive sequence numbers modulo 2^31 as their last message, and the
    counter ends advanced by exactly the number of frames built: events
    that build no frame do not consume a number. *)
Theorem frames_numbered_consecutively
    (settings : AppSettings) (evs : list Event) (w : World) :
  0 <= fseq w < 2147483648 ->
  let frames := fst (TouchSurface.run settings evs w) in
  let w' := snd (TouchSurface.run settings evs w) in
  fseq w' = (fseq w + Z.of_nat (length frames)) mod 2147483648
  /\ forall (i : nat) (frame : list OSCMessage),
       nth_error frames i = Some frame ->
       last frame
       = Some (fseqMessage ((fseq w + Z.of_nat i + 1) mod 2147483648)).
Proof.
  cbv zeta. revert w. induction evs as [ | ev rest IH]; intros w Hrange.
  - cbn. split; [ | intros [ | i] frame Hnth; discriminate Hnth].
    rewrite Z.add_0_r. symmetry. apply Z.mod_small. exact Hrange.
  - rewrite run_cons. cbn [fst snd].
    destruct (TouchSurface.dispatch settings ev w) as [[ms | ] w1] eqn:Hev;
      cbn [fst snd].
    + destruct (dispatch_frame _ _ _ _ _ Hev) as [Hms Hf].
      rewrite Z.rem_mod_nonneg in Hf by lia.
      assert (0 <= fseq w1 < 2147483648) as Hrange1
        by (rewrite Hf; apply Z.mod_pos_bound; lia).
      destruct (IH w1 Hrange1) as [Hcount Hnth]. split.
      * rewrite Hcount, Hf, Zplus_mod_idemp_l. cbn [length]. f_equal. lia.
      * intros [ | i] frame Hi; cbn [nth_error] in Hi.
        -- injection Hi as <-. rewrite Hms, frameLayout_last, Hf.
           do 3 f_equal. lia.
        -- rewrite (Hnth i frame Hi), Hf, <- Z.add_assoc, Zplus_mod_idemp_l.
           do 3 f_equal. lia.
    + destruct (dispatch_no_frame _ _ _ _ Hev) as (Hf & _).
      rewrite <- Hf in *. now apply IH.
Qed.

Lemma frames_numbered_consecutively_sample :
  let rect := mkDOMRect 0 0 100 100 in
  let evs := [TouchEvent Tstart rect [mkTouch 7 20 30 0];
              MouseMove (mkMouseEvent 0 10 10 50 50) rect;
              TouchEvent Tmove rect [mkTouch 7 60 30 500];
              AnimationFrame 510;
              TouchEvent Tend rect [mkTouch 7 60 30 700]] in
  let run := TouchSurface.run DEFAULT_SETTINGS evs initialWorld in
  length (fst run) = 4%nat
  /\ fseq (snd run) = 4
  /\ (forall frame, nth_error (fst run) 3 = Some frame ->
                    last frame = Some (fseqMessage 4)).
Proof.
  intros rect evs run.
  destruct (frames_numbered_consecutively DEFAULT_SETTINGS evs initialWorld)
    as [Hcount Hnth]; [cbn; lia | ].
  split; [reflexivity | split].
  - fold run in Hcount. rewrite Hcount. reflexivity.
  - intros frame Hframe. exact (Hnth 3%nat frame Hframe).
Defined.

(** ** What every reachable cursor satisfies *)

Lemma updateCursorPhysics_position (current : TuioCursor) (newX newY now : float) :
  x (TuioService.updateCursorPhysics current newX newY now) = newX
  /\ y (TuioService.updateCursorPhysics current newX newY now) = newY
  /\ lastTime (TuioService.updateCursorPhysics current newX newY now) = now.
Proof.
  unfold TuioService.updateCursorPhysics.
  now destruct ((now - lastTime current) / 1000 <=? 0.001)%float.
Qed.

Lemma getNextSessionId_range (w : World) :
  0 <= sessionIdCounter w <= 10000 ->
  0 <= fst (TuioService.getNextSessionId w) <= 10000.
Proof.
  intros Hc. rewrite getNextSessionId_mod by exact Hc.
  pose proof (Z.mod_pos_bound (sessionIdCounter w + 1) 10001). lia.
Qed.

Lemma clamped_pair (settings : AppSettings) (u v : float) :
  unitOrNaN (clampUnit u) = true
  /\ (invertY settings = false ->
      unitOrNaN (if invertY settings then (1 - clampUnit v)%float else clampUnit v)
      = true).
Proof.
  split; [apply clampUnit_unitOrNaN | ]. intros ->. apply clampUnit_unitOrNaN.
Qed.

Lemma cursorSound_updated
    (settings : AppSettings) (existing : TuioCursor) (u v now : float) :
  cursorSound settings existing ->
  cursorSound settings
    (TuioService.updateCursorPhysics existing (clampUnit u)
       (if invertY settings then (1 - clampUnit v)%float else clampUnit v) now).
Proof.
  intros [Hid _]. split.
  - now rewrite updateCursorPhysics_sessionId.
  - unfold coordinatesClamped.
    destruct (updateCursorPhysics_position existing (clampUnit u)
                (if invertY settings then (1 - clampUnit v)%float else clampUnit v)
                now) as (-> & -> & _).
    apply clamped_pair.
Qed.

Lemma processOneTouch_sound
    (settings : AppSettings) (rect : DOMRect) (type : TouchType)
    (touch : Touch) (w : World) :
  let w' := snd (TouchSurface.processOneTouch settings rect type touch w) in
  worldSound settings w ->
  worldSound settings w'
  /\ sessionIdCounter w'
     = (sessionIdCounter w + match type with Tstart => 1 | _ => 0 end) mod 10001.
Proof.
  intros w' [Hrange Hall]. subst w'.
  assert (sessionIdCounter w = (sessionIdCounter w + 0) mod 10001) as Hsame
    by (rewrite Z.add_0_r; symmetry; apply Z.mod_small; lia).
  destruct type.
  - rewrite processOneTouch_start. unfold worldSound.
    cbn [sessionIdCounter cursorsRef set_cursorsRef set_sessionIdCounter].
    pose proof (getNextSessionId_range w Hrange) as Hid.
    split; [split; [exact Hid | ] | now apply getNextSessionId_mod].
    apply JsMap_set_Forall; [exact Hall | ]. split.
    + cbn [sessionId]. eauto.
    + apply clamped_pair.
  - destruct (JsMap.get (pretty (identifier touch)) (cursorsRef w))
      as [existing | ] eqn:Hget.
    + rewrite (processOneTouch_move _ _ _ _ _ Hget). unfold worldSound.
      cbn [sessionIdCounter cursorsRef set_cursorsRef].
      split; [split; [exact Hrange | ] | exact Hsame].
      apply JsMap_set_Forall; [exact Hall | ].
      apply cursorSound_updated.
      exact (proj1 (List.Forall_forall _ _) Hall existing (JsMap_get_In _ _ _ Hget)).
    + pose proof (processOneTouch_effect settings rect Tmove touch w)
        as (_ & _ & Hw).
      cbv zeta in Hw. rewrite Hget in Hw. rewrite Hw.
      split; [split; assumption | exact Hsame].
  - rewrite (processOneTouch_end settings rect false). unfold worldSound.
    cbn [sessionIdCounter cursorsRef set_cursorsRef].
    split; [split; [exact Hrange | now apply JsMap_delete_Forall] | exact Hsame].
  - rewrite (processOneTouch_end settings rect true). unfold worldSound.
    cbn [sessionIdCounter cursorsRef set_cursorsRef].
    split; [split; [exact Hrange | now apply JsMap_delete_Forall] | exact Hsame].
Qed.

Lemma forEach_touches_sound
    (settings : AppSettings) (rect : DOMRect) (type : TouchType)
    (touches : list Touch) (w : World) :
  let w' := snd (forEach touches (TouchSurface.processOneTouch settings rect type) w) in
  worldSound settings w ->
  worldSound settings w'
  /\ sessionIdCounter w'
     = (sessionIdCounter w
        + Z.of_nat (eventAcquisitions (TouchEvent type rect touches))) mod 10001.
Proof.
  cbv zeta. revert w. induction touches as [ | touch rest IH]; intros w Hsound.
  - cbn [forEach ret snd]. split; [exact Hsound | ].
    assert (eventAcquisitions (TouchEvent type rect []) = 0%nat) as ->
      by now destruct type.
    rewrite Z.add_0_r. symmetry. apply Z.mod_small.
    destruct Hsound as [Hrange _]. lia.
  - cbn [forEach]. unfold bind.
    pose proof (processOneTouch_sound settings rect type touch w Hsound) as Hone.
    cbv zeta in Hone.
    destruct (TouchSurface.processOneTouch settings rect type touch w) as [[] w1].
    cbn [snd] in Hone. cbv beta iota.
    destruct Hone as [Hsound1 Hcounter1].
    destruct (IH w1 Hsound1) as [Hsound2 Hcounter2].
    split; [exact Hsound2 | ].
    rewrite Hcounter2, Hcounter1, Zplus_mod_idemp_l. f_equal.
    destruct type; cbn [eventAcquisitions length]; lia.
Qed.

Lemma dispatch_sound (settings : AppSettings) (ev : Event) (w : World) :
  let w' := snd (TouchSurface.dispatch settings ev w) in
  worldSound settings w ->
  worldSound settings w'
  /\ sessionIdCounter w'
     = (sessionIdCounter w + Z.of_nat (eventAcquisitions ev)) mod 10001.
Proof.
  intros w' Hsound. subst w'.
  assert (sessionIdCounter w = (sessionIdCounter w + Z.of_nat 0) mod 10001) as Hsame
    by (cbn; rewrite Z.add_0_r; symmetry; apply Z.mod_small;
        destruct Hsound as [Hrange _]; lia).
  destruct (TouchSurface.dispatch settings ev w) as [[frame | ] w1] eqn:Hev;
    cbn [snd].
  2: { destruct (dispatch_no_frame _ _ _ _ Hev) as (_ & Hc & Hm & _).
       assert (eventAcquisitions ev = 0%nat) as ->.
       { destruct ev as [type rect touches | e rect | e rect | e | now];
           try reflexivity.
         - cbn [TouchSurface.dispatch] in Hev. unfold bind, ret in Hev.
           destruct (TouchSurface.processTouch settings rect touches type w).
           discriminate Hev.
         - cbn [TouchSurface.dispatch eventAcquisitions] in *.
           unfold TouchSurface.handleMouseDown in Hev.
           destruct (button e =? 0); [ | reflexivity].
           run_handler in Hev. discriminate Hev. }
       unfold worldSound. rewrite Hc, Hm. split; [exact Hsound | exact Hsame]. }
  destruct ev as [type rect touches | e rect | e rect | e | now].
  - apply (f_equal snd) in Hev. rewrite dispatch_touch_world in Hev.
    cbn [snd] in Hev. subst w1.
    destruct (forEach_touches_sound settings rect type touches w Hsound)
      as [Hsound1 Hcounter1].
    split; [exact Hsound1 | exact Hcounter1].
  - cbn [eventAcquisitions].
    destruct (Z.eqb_spec (button e) 0) as [Hbutton | Hbutton].
    + rewrite (handleMouseDown_world settings e rect w Hbutton) in Hev.
      injection Hev as _ <-. destruct Hsound as [Hrange Hall].
      unfold worldSound.
      cbn [sessionIdCounter cursorsRef set_fseq set_cursorsRef
           set_sessionIdCounter set_mouseIdRef].
      pose proof (getNextSessionId_range w Hrange) as Hid.
      split; [split; [exact Hid | ] | now apply getNextSessionId_mod].
      apply JsMap_set_Forall; [exact Hall | ]. split.
      * cbn [sessionId]. eauto.
      * apply clamped_pair.
    + cbn [TouchSurface.dispatch] in Hev.
      unfold TouchSurface.handleMouseDown in Hev.
      apply Z.eqb_neq in Hbutton. rewrite Hbutton in Hev. discriminate Hev.
  - cbn [TouchSurface.dispatch eventAcquisitions] in *.
    unfold TouchSurface.handleMouseMove in Hev. run_handler in Hev.
    destruct (negb (truthy (mouseIdRef w))); [discriminate Hev | ].
    destruct (handlerNow e - lastMouseMoveTimeRef w <? TouchSurface.MOUSE_MOVE_THROTTLE)%float;
      [discriminate Hev | ].
    cbn [cursorsRef set_lastMouseMoveTimeRef] in Hev.
    destruct (JsMap.get (default EmptyString (mouseIdRef w)) (cursorsRef w))
      as [existing | ] eqn:Hget; [ | discriminate Hev].
    injection Hev as _ <-. destruct Hsound as [Hrange Hall].
    unfold worldSound.
    cbn [sessionIdCounter cursorsRef set_fseq set_cursorsRef
         set_lastMouseMoveTimeRef].
    split; [split; [exact Hrange | ] | exact Hsame].
    apply JsMap_set_Forall; [exact Hall | ].
    apply (cursorSound_updated settings existing
             ((clientX e - left rect) / width rect)
             ((clientY e - top rect) / height rect)).
    exact (proj1 (List.Forall_forall _ _) Hall existing (JsMap_get_In _ _ _ Hget)).
  - cbn [TouchSurface.dispatch eventAcquisitions] in *.
    unfold TouchSurface.handleMouseUp in Hev. run_handler in Hev.
    destruct (negb (truthy (mouseIdRef w))); [discriminate Hev | ].
    injection Hev as _ <-. destruct Hsound as [Hrange Hall].
    unfold worldSound.
    cbn [sessionIdCounter cursorsRef set_fseq set_cursorsRef set_mouseIdRef].
    split; [split; [exact Hrange | now apply JsMap_delete_Forall] | exact Hsame].
  - rewrite loop_world in Hev.
    destruct (periodicUpdates settings && (0 <? JsMap.size (cursorsRef w))%nat);
      [ | discriminate Hev].
    destruct (33 <=? now - lastPeriodicUpdateRef w)%float; [ | discriminate Hev].
    injection Hev as _ <-.
    split; [exact Hsound | exact Hsame].
Qed.

Lemma run_sound (settings : AppSettings) (evs : list Event) (w : World) :
  worldSound settings w ->
  worldSound settings (snd (TouchSurface.run settings evs w))
  /\ sessionIdCounter (snd (TouchSurface.run settings evs w))
     = (sessionIdCounter w + Z.of_nat (acquisitions evs)) mod 10001.
Proof.
  revert w. induction evs as [ | ev rest IH]; intros w Hsound.
  - cbn. split; [exact Hsound | ].
    rewrite Z.add_0_r. symmetry. apply Z.mod_small.
    destruct Hsound as [Hrange _]. lia.
  - rewrite run_cons_world.
    destruct (dispatch_sound settings ev w Hsound) as [Hsound1 Hcounter1].
    destruct (IH _ Hsound1) as [Hsound2 Hcounter2].
    split; [exact Hsound2 | ].
    rewrite Hcounter2, Hcounter1, Zplus_mod_idemp_l. f_equal.
    change (acquisitions (ev :: rest))
      with (eventAcquisitions ev + acquisitions rest)%nat.
    lia.
Qed.

Lemma worldSound_initial (settings : AppSettings) : worldSound settings initialWorld.
Proof. split; [cbn; lia | constructor]. Qed.

(** X11 (stored coordinates are clamped). After any sequence of events, every
    cursor of the map has an [x] within [0, 1], and a [y] within [0, 1]
    when [invertY] is off; the one exception is NaN, which a bounding box
    of zero width or height can produce and the clamp lets through. *)
Theorem reachable_coordinates_clamped (settings : AppSettings) (evs : list Event) :
  Forall (fun c =>
            unitOrNaN (x c) = true
            /\ (invertY settings = false -> unitOrNaN (y c) = true))
         (JsMap.values
            (cursorsRef (snd (TouchSurface.run settings evs initialWorld)))).
Proof.
  destruct (run_sound settings evs initialWorld (worldSound_initial settings))
    as [[_ Hall] _].
  eapply List.Forall_impl; [ | exact Hall].
  intros c [_ Hclamped]. exact Hclamped.
Qed.

(** X12 (session identifiers are integers). After any sequence of events, the
    session counter is within [0, 10000] and every cursor of the map
    carries the image of an integer of [0, 10000]; [Math.floor] leaves it
    as it is, so each set message names the very identifier the alive
    message lists for its cursor. *)
Theorem reachable_session_ids_integral (settings : AppSettings) (evs : list Event) :
  let w := snd (TouchSurface.run settings evs initialWorld) in
  0 <= sessionIdCounter w <= 10000
  /\ Forall (fun c => exists k, 0 <= k <= 10000 /\ sessionId c = Z2num k)
            (JsMap.values (cursorsRef w))
  /\ map (fun c => Math_floor (sessionId c)) (JsMap.values (cursorsRef w))
     = map sessionId (JsMap.values (cursorsRef w)).
Proof.
  intros w. subst w.
  destruct (run_sound settings evs initialWorld (worldSound_initial settings))
    as [[Hrange Hall] _].
  split; [exact Hrange | split].
  - eapply List.Forall_impl; [ | exact Hall]. intros c [Hid _]. exact Hid.
  - apply map_ext_in. intros c Hin.
    destruct (proj1 (List.Forall_forall _ _) Hall c Hin) as [(k & Hk & ->) _].
    apply Math_floor_Z2num.
    assert (2 ^ 14 <= 2 ^ 53) by (apply Z.pow_le_mono_r; lia). lia.
Qed.

(** X13 (the counter counts acquisitions). After any sequence of events, the
    session counter is the number of acquisitions of the sequence (one per
    started touch, one per left-button press) modulo 10001. *)
Theorem session_counter_counts_acquisitions
    (settings : AppSettings) (evs : list Event) :
  sessionIdCounter (snd (TouchSurface.run settings evs initialWorld))
  = Z.of_nat (acquisitions evs) mod 10001.
Proof.
  destruct (run_sound settings evs initialWorld (worldSound_initial settings))
    as [_ Hcounter].
  exact Hcounter.
Qed.

(** X14 (no silent change). An event that builds no frame has changed
    neither the cursor map, nor the session counter, nor the frame counter,
    nor the pending mouse press: every change of the registry is
    announced by a frame. *)
Theorem silent_events_change_nothing
    (settings : AppSettings) (ev : Event) (w : World) :
  fst (TouchSurface.dispatch settings ev w) = None ->
  let w' := snd (TouchSurface.dispatch settings ev w) in
  cursorsRef w' = cursorsRef w
  /\ sessionIdCounter w' = sessionIdCounter w
  /\ fseq w' = fseq w
  /\ mouseIdRef w' = mouseIdRef w.
Proof.
  intros Hnone w'. subst w'.
  destruct (TouchSurface.dispatch settings ev w) as [frame w1] eqn:Hev.
  cbn [fst snd] in *. subst frame.
  destruct (dispatch_no_frame _ _ _ _ Hev) as (Hf & Hc & Hm & Hid).
  repeat split; assumption.
Qed.

(** A mouse move 20 ms after a release: the press is no longer pending. *)
Lemma silent_events_change_nothing_sample :
  let rect := mkDOMRect 0 0 100 100 in
  let w := snd (TouchSurface.run DEFAULT_SETTINGS
                  [TouchEvent Tstart rect [mkTouch 7 20 30 0];
                   MouseDown (mkMouseEvent 0 10 10 5 5) rect;
                   MouseUp (mkMouseEvent 0 10 10 9 9)]
                  initialWorld) in
  let w' := snd (TouchSurface.dispatch DEFAULT_SETTINGS
                   (MouseMove (mkMouseEvent 0 50 50 29 29) rect) w) in
  cursorsRef w' = cursorsRef w /\ fseq w' = 3 /\ sessionIdCounter w' = 2.
Proof.
  intros rect w w'.
  destruct (silent_events_change_nothing DEFAULT_SETTINGS
              (MouseMove (mkMouseEvent 0 50 50 29 29) rect) w eq_refl)
    as (Hmap & Hcounter & Hfseq & _).
  split; [exact Hmap | split].
  - fold w' in Hfseq. rewrite Hfseq. reflexivity.
  - fold w' in Hcounter. rewrite Hcounter. reflexivity.
Defined.

(** ** The payload determines the frame *)






(** ** Samples with the same time stamp *)

Lemma is_finite_Prim2SF (t : float) :
  is_finite t = true ->
  (exists s, Prim2SF t = S754_zero s)
  \/ (exists s m e, Prim2SF t = S754_finite s m e).
Proof.
  unfold is_finite. intros Hfin. apply negb_true_iff, orb_false_iff in Hfin.
  destruct Hfin as [Hnan Hinf]. unfold Prim2SF. rewrite Hnan, Hinf.
  destruct (is_zero t); [left; eauto | ].
  destruct (Z.frexp t) as [r ex].
  destruct (shr_fexp prec emax (Uint63.to_Z (normfr_mantissa r)) (ex - prec) loc_Exact)
    as [shr e'].
  destruct (shr_m shr); [left | right | left]; eauto.
Qed.

(** The elapsed time between a finite time stamp and itself is under the
    guard. *)
Lemma duplicate_time_guard (t : float) :
  is_finite t = true -> ((t - t) / 1000 <=? 0.001)%float = true.
Proof.
  intros Hfin. rewrite leb_spec, div_spec, sub_spec.
  assert (SF64sub (Prim2SF t) (Prim2SF t) = S754_zero false) as ->.
  { destruct (is_finite_Prim2SF t Hfin) as [[s ->] | (s & m & e & ->)].
    - now destruct s.
    - unfold SF64sub, SFsub. rewrite Z.sub_diag. reflexivity. }
  reflexivity.
Qed.

(** X16 (samples at one instant). A sample whose time stamp equals the
    cursor's last one (a finite time) only moves the cursor: velocity and
    acceleration stay.  In particular, feeding the estimator the same
    sample twice gives what feeding it once gives. *)
Theorem updateCursorPhysics_same_instant
    (current : TuioCursor) (newX newY newX' newY' t : float) :
  is_finite t = true ->
  let once := TuioService.updateCursorPhysics current newX newY t in
  TuioService.updateCursorPhysics once newX' newY' t
  = {| sessionId := sessionId current;
       x := newX';
       y := newY';
       vx := vx once;
       vy := vy once;
       a := a once;
       lastTime := t |}
  /\ TuioService.updateCursorPhysics once newX newY t = once.
Proof.
  intros Hfin once.
  destruct (updateCursorPhysics_position current newX newY t) as (Hx & Hy & Ht).
  pose proof (updateCursorPhysics_sessionId current newX newY t) as Hid.
  fold once in Hx, Hy, Ht, Hid.
  assert (forall u v,
            TuioService.updateCursorPhysics once u v t
            = {| sessionId := sessionId current; x := u; y := v;
                 vx := vx once; vy := vy once; a := a once; lastTime := t |})
    as Hsame.
  { intros u v. unfold TuioService.updateCursorPhysics at 1.
    rewrite Ht, (duplicate_time_guard t Hfin), Hid. reflexivity. }
  split; [apply Hsame | ].
  rewrite Hsame. destruct once as [sid ox oy ovx ovy oa ot].
  cbn in Hx, Hy, Ht, Hid |- *. now subst.
Qed.

(** A cursor that moved to (0.5, 0.5) in one second is sampled again at the
    same instant at (0.6, 0.5): its velocity stays (0.3, 0.2). *)
Lemma updateCursorPhysics_same_instant_sample :
  let current := mkTuioCursor 1 0.2 0.3 0 0 0 0 in
  let once := TuioService.updateCursorPhysics current 0.5 0.5 1000 in
  vx (TuioService.updateCursorPhysics once 0.6 0.5 1000) = vx once
  /\ x (TuioService.updateCursorPhysics once 0.6 0.5 1000) = 0.6%float
  /\ TuioService.updateCursorPhysics once 0.5 0.5 1000 = once.
Proof.
  intros current once.
  destruct (updateCursorPhysics_same_instant current 0.5 0.5 0.6 0.5 1000 eq_refl)
    as [Hmoved Hsame].
  fold once in Hmoved, Hsame. rewrite Hmoved.
  split; [reflexivity | split; [reflexivity | exact Hsame]].
Defined.

(** ** Distinct session identifiers, up to the wrap and not beyond *)

Lemma NoDup_cursorId_sessionId (l : list TuioCursor) :
  NoDup (map cursorId l) -> NoDup (map sessionId l).
Proof.
  intros Hnd. apply (NoDup_map_source num2Z). now rewrite map_map.
Qed.

Lemma forEach_app {A : Type} (l1 l2 : list A) (body : A -> M unit) (w : World) :
  snd (forEach (l1 ++ l2) body w) = snd (forEach l2 body (snd (forEach l1 body w))).
Proof.
  revert w. induction l1 as [ | item rest IH]; intros w; [reflexivity | ].
  cbn [app forEach]. unfold bind.
  destruct (body item w) as [[] w1]. apply IH.
Qed.

Lemma run_app_world (settings : AppSettings) (evs1 evs2 : list Event) (w : World) :
  snd (TouchSurface.run settings (evs1 ++ evs2) w)
  = snd (TouchSurface.run settings evs2 (snd (TouchSurface.run settings evs1 w))).
Proof.
  revert w. induction evs1 as [ | ev rest IH]; intros w; [reflexivity | ].
  cbn [app]. now rewrite !run_cons_world, IH.
Qed.

(** One touch other than a start keeps the session identifiers distinct. *)
Lemma processOneTouch_keeps_distinct
    (settings : AppSettings) (rect : DOMRect) (type : TouchType)
    (touch : Touch) (w : World) :
  type <> Tstart ->
  NoDup (map sessionId (JsMap.values (cursorsRef w))) ->
  NoDup (map sessionId
           (JsMap.values
              (cursorsRef (snd (TouchSurface.processOneTouch settings rect type touch w))))).
Proof.
  intros Htype Hnd.
  pose proof (processOneTouch_effect settings rect type touch w) as [_ Heff].
  cbv zeta in Heff.
  destruct type; [congruence | | | ].
  - destruct Heff as [_ Hmove].
    destruct (JsMap.get (pretty (identifier touch)) (cursorsRef w))
      as [existing | ] eqn:Hget.
    + destruct Hmove as (c & Hid & ->).
      now rewrite (JsMap_set_same_image sessionId _ _ _ _ Hget Hid).
    + now rewrite Hmove.
  - destruct Heff as [_ ->]. now apply JsMap_delete_NoDup_image.
  - destruct Heff as [_ ->]. now apply JsMap_delete_NoDup_image.
Qed.

Lemma forEach_keeps_distinct
    (settings : AppSettings) (rect : DOMRect) (type : TouchType)
    (touches : list Touch) (w : World) :
  type <> Tstart ->
  NoDup (map sessionId (JsMap.values (cursorsRef w))) ->
  NoDup (map sessionId
           (JsMap.values
              (cursorsRef
                 (snd (forEach touches
                         (TouchSurface.processOneTouch settings rect type) w))))).
Proof.
  intros Htype. revert w. induction touches as [ | touch rest IH]; intros w Hnd.
  - exact Hnd.
  - cbn [forEach]. unfold bind.
    pose proof (processOneTouch_keeps_distinct settings rect type touch w Htype Hnd)
      as Hone.
    destruct (TouchSurface.processOneTouch settings rect type touch w) as [[] w1].
    now apply IH.
Qed.

(** An event that acquires nothing keeps the session identifiers distinct. *)
Lemma dispatch_keeps_distinct (settings : AppSettings) (ev : Event) (w : World) :
  eventAcquisitions ev = 0%nat ->
  NoDup (map sessionId (JsMap.values (cursorsRef w))) ->
  NoDup (map sessionId
           (JsMap.values (cursorsRef (snd (TouchSurface.dispatch settings ev w))))).
Proof.
  intros Hzero Hnd.
  destruct (TouchSurface.dispatch settings ev w) as [[frame | ] w1] eqn:Hev;
    cbn [snd].
  2: { destruct (dispatch_no_frame _ _ _ _ Hev) as (_ & _ & -> & _). exact Hnd. }
  destruct ev as [type rect touches | e rect | e rect | e | now].
  - apply (f_equal snd) in Hev. rewrite dispatch_touch_world in Hev.
    cbn [snd] in Hev. subst w1. cbn [cursorsRef set_fseq].
    destruct type; try (apply forEach_keeps_distinct; [discriminate | exact Hnd]).
    cbn [eventAcquisitions] in Hzero. apply length_zero_iff_nil in Hzero.
    now subst touches.
  - cbn [TouchSurface.dispatch eventAcquisitions] in *.
    unfold TouchSurface.handleMouseDown in Hev.
    destruct (button e =? 0); [discriminate Hzero | discriminate Hev].
  - cbn [TouchSurface.dispatch] in Hev.
    unfold TouchSurface.handleMouseMove in Hev. run_handler in Hev.
    destruct (negb (truthy (mouseIdRef w))); [discriminate Hev | ].
    destruct (handlerNow e - lastMouseMoveTimeRef w <? TouchSurface.MOUSE_MOVE_THROTTLE)%float;
      [discriminate Hev | ].
    cbn [cursorsRef set_lastMouseMoveTimeRef] in Hev.
    destruct (JsMap.get (default EmptyString (mouseIdRef w)) (cursorsRef w))
      as [existing | ] eqn:Hget; [ | discriminate Hev].
    injection Hev as _ <-. cbn [cursorsRef set_fseq set_cursorsRef].
    now rewrite (JsMap_set_same_image sessionId _ _ _ _ Hget
                   (updateCursorPhysics_sessionId existing _ _ _)).
  - cbn [TouchSurface.dispatch] in Hev.
    unfold TouchSurface.handleMouseUp in Hev. run_handler in Hev.
    destruct (negb (truthy (mouseIdRef w))); [discriminate Hev | ].
    injection Hev as _ <-. cbn [cursorsRef set_fseq set_cursorsRef set_mouseIdRef].
    now apply JsMap_delete_NoDup_image.
  - rewrite loop_world in Hev.
    destruct (periodicUpdates settings && (0 <? JsMap.size (cursorsRef w))%nat);
      [ | discriminate Hev].
    destruct (33 <=? now - lastPeriodicUpdateRef w)%float; [ | discriminate Hev].
    injection Hev as _ <-. exact Hnd.
Qed.

Lemma run_keeps_distinct (settings : AppSettings) (evs : list Event) (w : World) :
  acquisitions evs = 0%nat ->
  NoDup (map sessionId (JsMap.values (cursorsRef w))) ->
  NoDup (map sessionId
           (JsMap.values (cursorsRef (snd (TouchSurface.run settings evs w))))).
Proof.
  revert w. induction evs as [ | ev rest IH]; intros w Hzero Hnd; [exact Hnd | ].
  change (acquisitions (ev :: rest))
    with (eventAcquisitions ev + acquisitions rest)%nat in Hzero.
  rewrite run_cons_world. apply IH; [lia | ].
  apply dispatch_keeps_distinct; [lia | exact Hnd].
Qed.

(** The acquisition that wraps the counter hands out 0, which no active
    cursor holds. *)
Lemma idsWithin_wrap (w : World) (key : string) (c : TuioCursor) :
  idsWithin w ->
  sessionId c = Z2num 0 ->
  NoDup (map sessionId (JsMap.values (JsMap.set key c (cursorsRef w)))).
Proof.
  intros (Hrange & Hall & Hnd) Hid. apply NoDup_cursorId_sessionId.
  apply JsMap_set_NoDup_image; [exact Hnd | ].
  assert (cursorId c = 0) as Hc by (unfold cursorId; now rewrite Hid).
  intros Hin. apply in_map_iff in Hin as (u & Hu & Hin).
  pose proof (proj1 (List.Forall_forall _ _) Hall u Hin) as Hbound.
  cbv beta in Hbound. lia.
Qed.

Lemma getNextSessionId_wrap (w : World) :
  sessionIdCounter w = 10000 -> fst (TuioService.getNextSessionId w) = 0.
Proof.
  intros Hc. unfold TuioService.getNextSessionId. cbn [fst]. now rewrite Hc.
Qed.

Lemma dispatch_wrap (settings : AppSettings) (ev : Event) (w : World) :
  idsWithin w ->
  sessionIdCounter w + Z.of_nat (eventAcquisitions ev) = 10001 ->
  NoDup (map sessionId
           (JsMap.values (cursorsRef (snd (TouchSurface.dispatch settings ev w))))).
Proof.
  intros Hinv Hfull. pose proof Hinv as (Hrange & _).
  destruct ev as [type rect touches | e rect | e rect | e | now];
    cbn [eventAcquisitions] in Hfull; try lia.
  - destruct type; try lia.
    destruct (exists_last (l := touches)) as (init & final & ->);
      [intros ->; cbn in Hfull; lia | ].
    rewrite length_app, Nat2Z.inj_add in Hfull. cbn [length] in Hfull.
    rewrite dispatch_touch_world, forEach_app, forEach_one_touch.
    cbn [cursorsRef set_fseq].
    destruct (forEach_touches_registry settings rect Tstart init w Hinv)
      as [Hinv1 Hcounter1]; [cbn [eventAcquisitions]; lia | ].
    cbn [eventAcquisitions] in Hcounter1.
    rewrite processOneTouch_start.
    cbn [cursorsRef set_cursorsRef set_sessionIdCounter].
    apply idsWithin_wrap; [exact Hinv1 | ]. cbn [sessionId].
    rewrite getNextSessionId_wrap; [reflexivity | lia].
  - destruct (Z.eqb_spec (button e) 0) as [Hbutton | Hbutton]; [ | cbn in Hfull; lia].
    rewrite (handleMouseDown_world settings e rect w Hbutton).
    cbn [snd cursorsRef set_fseq set_cursorsRef set_sessionIdCounter set_mouseIdRef].
    apply idsWithin_wrap; [exact Hinv | ]. cbn [sessionId].
    rewrite getNextSessionId_wrap; [reflexivity | cbn in Hfull; lia].
Qed.

Lemma run_distinct_upto_wrap (settings : AppSettings) (evs : list Event) (w : World) :
  idsWithin w ->
  sessionIdCounter w + Z.of_nat (acquisitions evs) <= 10001 ->
  NoDup (map sessionId
           (JsMap.values (cursorsRef (snd (TouchSurface.run settings evs w))))).
Proof.
  revert w. induction evs as [ | ev rest IH]; intros w Hinv Hroom.
  - apply NoDup_cursorId_sessionId. apply Hinv.
  - change (acquisitions (ev :: rest))
      with (eventAcquisitions ev + acquisitions rest)%nat in Hroom.
    rewrite Nat2Z.inj_add in Hroom. rewrite run_cons_world.
    destruct (Z_le_gt_dec (sessionIdCounter w + Z.of_nat (eventAcquisitions ev)) 10000)
      as [Hle | Hgt].
    + destruct (dispatch_registry settings ev w Hinv Hle) as [Hinv1 Hcounter1].
      apply IH; [exact Hinv1 | lia].
    + apply run_keeps_distinct; [lia | ].
      apply dispatch_wrap; [exact Hinv | lia].
Qed.

(** X17 (distinct up to the wrap). After any sequence of events with at most
    10001 acquisitions, counted from the fresh state, the cursors of the
    map carry pairwise distinct session identifiers: the identifier 0 that
    the wrap hands out is still a new one. *)
Theorem active_session_ids_distinct_upto_wrap
    (settings : AppSettings) (evs : list Event) :
  Z.of_nat (acquisitions evs) <= 10001 ->
  NoDup (map sessionId
           (JsMap.values
              (cursorsRef (snd (TouchSurface.run settings evs initialWorld))))).
Proof.
  intros Hbudget. apply run_distinct_upto_wrap; [apply idsWithin_initial | ].
  cbn [sessionIdCounter initialWorld]. lia.
Qed.

(** One finger stays down while another taps 10000 times: 10001
    acquisitions, the last of which wraps the counter. *)
Lemma active_session_ids_distinct_upto_wrap_sample :
  let rect := mkDOMRect 0 0 1 1 in
  let evs := TouchEvent Tstart rect [mkTouch 1 0.2 0.3 0]
             :: taps 10000 rect (mkTouch 2 0.5 0.5 0) in
  Z.of_nat (acquisitions evs) = 10001
  /\ NoDup (map sessionId
              (JsMap.values
                 (cursorsRef (snd (TouchSurface.run DEFAULT_SETTINGS evs initialWorld))))).
Proof.
  intros rect evs.
  assert (Z.of_nat (acquisitions evs) = 10001) as Hcount by (vm_compute; reflexivity).
  split; [exact Hcount | ].
  apply (active_session_ids_distinct_upto_wrap DEFAULT_SETTINGS evs).
  rewrite Hcount. apply Z.le_refl.
Defined.

Lemma acquisitions_taps (n : nat) (rect : DOMRect) (touch : Touch) :
  acquisitions (taps n rect touch) = n.
Proof.
  induction n as [ | k IH]; [reflexivity | ].
  change (acquisitions (taps (S k) rect touch))
    with (1 + (0 + acquisitions (taps k rect touch)))%nat.
  now rewrite IH.
Qed.

Lemma acquisitions_app (evs1 evs2 : list Event) :
  acquisitions (evs1 ++ evs2) = (acquisitions evs1 + acquisitions evs2)%nat.
Proof.
  induction evs1 as [ | ev rest IH]; [reflexivity | ].
  change (acquisitions ((ev :: rest) ++ evs2))
    with (eventAcquisitions ev + acquisitions (rest ++ evs2))%nat.
  change (acquisitions (ev :: rest))
    with (eventAcquisitions ev + acquisitions rest)%nat.
  rewrite IH. lia.
Qed.

(** Taps of an identifier that is not active give the map back and spend
    one session identifier each. *)
Lemma taps_world
    (settings : AppSettings) (rect : DOMRect) (touch : Touch) (n : nat) (w : World) :
  JsMap.get (pretty (identifier touch)) (cursorsRef w) = None ->
  0 <= sessionIdCounter w <= 10000 ->
  let w' := snd (TouchSurface.run settings (taps n rect touch) w) in
  cursorsRef w' = cursorsRef w
  /\ sessionIdCounter w' = (sessionIdCounter w + Z.of_nat n) mod 10001.
Proof.
  cbv zeta. revert w. induction n as [ | k IH]; intros w Habsent Hrange.
  - cbn. split; [reflexivity | ].
    rewrite Z.add_0_r. symmetry. apply Z.mod_small. lia.
  - cbn [taps]. rewrite !run_cons_world.
    rewrite (dispatch_one_touch_world settings Tend).
    rewrite (processOneTouch_end settings rect false).
    rewrite dispatch_one_touch_world, processOneTouch_start.
    cbn [cursorsRef set_fseq set_cursorsRef set_sessionIdCounter].
    rewrite (JsMap_delete_set_absent _ _ _ Habsent).
    match goal with
    | |- context [TouchSurface.run settings (taps k rect touch) ?w1] =>
        destruct (IH w1) as [Hmap Hcounter]
    end.
    + exact Habsent.
    + cbn [sessionIdCounter set_fseq set_cursorsRef set_sessionIdCounter].
      now apply getNextSessionId_range.
    + rewrite Hmap, Hcounter.
      cbn [cursorsRef sessionIdCounter set_fseq set_cursorsRef set_sessionIdCounter].
      split; [reflexivity | ].
      rewrite getNextSessionId_mod, Zplus_mod_idemp_l by exact Hrange.
      f_equal. lia.
Qed.

(** X18 (collision beyond the wrap). The bound is tight: while one touch
    stays down, 10000 taps of another touch followed by one more start of
    it (10002 acquisitions in all) leave two active cursors with the same
    session identifier 1.  The counter wraps blindly and does not skip
    identifiers that are still active. *)
Theorem session_ids_collide_beyond_wrap
    (settings : AppSettings) (rect : DOMRect) (held tapped : Touch) :
  identifier held <> identifier tapped ->
  let evs := TouchEvent Tstart rect [held]
             :: taps (Z.to_nat 10000) rect tapped
             ++ [TouchEvent Tstart rect [tapped]] in
  let w := snd (TouchSurface.run settings evs initialWorld) in
  Z.of_nat (acquisitions evs) = 10002
  /\ JsMap.keys (cursorsRef w) = [pretty (identifier held); pretty (identifier tapped)]
  /\ map sessionId (JsMap.values (cursorsRef w)) = [Z2num 1; Z2num 1]
  /\ ~ NoDup (map sessionId (JsMap.values (cursorsRef w))).
Proof.
  intros Hne evs w.
  assert (Z.of_nat (acquisitions evs) = 10002) as Hcount.
  { subst evs.
    change (acquisitions (?ev :: ?rest))
      with (eventAcquisitions ev + acquisitions rest)%nat.
    rewrite acquisitions_app, acquisitions_taps. cbn [eventAcquisitions length].
    change (acquisitions [TouchEvent Tstart rect [tapped]]) with 1%nat. lia. }
  assert (JsMap.keys (cursorsRef w)
          = [pretty (identifier held); pretty (identifier tapped)]
          /\ map sessionId (JsMap.values (cursorsRef w)) = [Z2num 1; Z2num 1])
    as [Hkeys Hids].
  { subst w evs. rewrite run_cons_world, run_app_world.
    rewrite dispatch_one_touch_world, processOneTouch_start.
    set (w1 := set_fseq _ _).
    assert (String.eqb (pretty (identifier held)) (pretty (identifier tapped)) = false)
      as Hkey by (apply String.eqb_neq; now apply pretty_Z_ne).
    assert (sessionIdCounter w1 = 1) as Hc1 by reflexivity.
    assert (exists ch, sessionId ch = Z2num 1
                       /\ cursorsRef w1 = [(pretty (identifier held), ch)])
      as (ch & Hch & Hm1) by (eexists; split; [ | reflexivity]; reflexivity).
    clearbody w1.
    destruct (taps_world settings rect tapped (Z.to_nat 10000) w1) as [Hmap Hcounter].
    - rewrite Hm1. cbn [JsMap.get]. now rewrite Hkey.
    - rewrite Hc1. lia.
    - rewrite run_cons_world. cbn [TouchSurface.run ret snd].
      rewrite dispatch_one_touch_world, processOneTouch_start.
      cbn [cursorsRef set_fseq set_cursorsRef set_sessionIdCounter].
      rewrite Hmap, Hm1. unfold TuioService.getNextSessionId. cbn [fst].
      rewrite Hcounter, Hc1, Z2Nat.id by lia.
      change ((1 + 10000) mod 10001) with 0. cbn [Z.add Z.gtb Z.compare Pos.compare
                                                   Pos.compare_cont].
      cbn [JsMap.set]. rewrite Hkey.
      cbn [JsMap.keys JsMap.values map fst snd sessionId]. rewrite Hch.
      split; reflexivity. }
  split; [exact Hcount | split; [exact Hkeys | split; [exact Hids | ]]].
  rewrite Hids. intros Hnd. apply NoDup_cons in Hnd as [Hin _].
  apply Hin. left.
Qed.

(** The held touch has identifier 1 and the tapping one identifier 2. *)
Lemma session_ids_collide_beyond_wrap_sample :
  let rect := mkDOMRect 0 0 1 1 in
  let held := mkTouch 1 0.2 0.3 0 in
  let tapped := mkTouch 2 0.5 0.5 0 in
  let evs := TouchEvent Tstart rect [held]
             :: taps (Z.to_nat 10000) rect tapped
             ++ [TouchEvent Tstart rect [tapped]] in
  map sessionId
    (JsMap.values
       (cursorsRef (snd (TouchSurface.run DEFAULT_SETTINGS evs initialWorld))))
  = [1; 1]%float.
Proof.
  intros rect held tapped evs.
  destruct (session_ids_collide_beyond_wrap DEFAULT_SETTINGS rect held tapped)
    as (_ & _ & Hids & _); [discriminate | ].
  exact Hids.
Defined.

(** ** Several touches starting in one event *)

Lemma JsMap_keys_app {V : Type} (m m' : JsMap.t V) :
  JsMap.keys (m ++ m') = JsMap.keys m ++ JsMap.keys m'.
Proof. unfold JsMap.keys. apply map_app. Qed.

Lemma JsMap_values_app {V : Type} (m m' : JsMap.t V) :
  JsMap.values (m ++ m') = JsMap.values m ++ JsMap.values m'.
Proof. unfold JsMap.values. apply map_app. Qed.

Lemma forEach_start_appends
    (settings : AppSettings) (rect : DOMRect) (touches : list Touch) (w : World) :
  List.NoDup (map identifier touches) ->
  Forall (fun touch =>
            JsMap.get (pretty (identifier touch)) (cursorsRef w) = None) touches ->
  0 <= sessionIdCounter w ->
  sessionIdCounter w + Z.of_nat (length touches) <= 10000 ->
  let w' := snd (forEach touches (TouchSurface.processOneTouch settings rect Tstart) w) in
  JsMap.keys (cursorsRef w')
  = JsMap.keys (cursorsRef w) ++ map (fun touch => pretty (identifier touch)) touches
  /\ map sessionId (JsMap.values (cursorsRef w'))
     = map sessionId (JsMap.values (cursorsRef w))
       ++ map (fun i => Z2num (sessionIdCounter w + Z.of_nat i))
              (seq 1 (length touches))
  /\ sessionIdCounter w' = sessionIdCounter w + Z.of_nat (length touches).
Proof.
  cbv zeta. revert w.
  induction touches as [ | touch rest IH]; intros w Hdistinct Habsent Hpos Hroom.
  - cbn. rewrite !app_nil_r. repeat split. lia.
  - cbn [length] in Hroom. rewrite Nat2Z.inj_succ in Hroom.
    cbn [map] in Hdistinct. apply List.NoDup_cons_iff in Hdistinct as [Hfresh Hrest].
    apply List.Forall_cons_iff in Habsent as [Hthis Hothers].
    cbn [forEach]. unfold bind.
    pose proof (processOneTouch_start settings rect touch w) as Hstart.
    cbv zeta in Hstart.
    destruct (TouchSurface.processOneTouch settings rect Tstart touch w) as [[] w1].
    cbn [snd] in Hstart. cbv beta iota. subst w1.
    rewrite getNextSessionId_below by lia.
    rewrite (JsMap_set_absent _ _ _ Hthis).
    match goal with
    | |- context [forEach rest _ ?w1] => destruct (IH w1) as (Hkeys & Hids & Hcounter)
    end.
    + exact Hrest.
    + cbn [cursorsRef set_cursorsRef set_sessionIdCounter].
      rewrite <- (JsMap_set_absent _ _ _ Hthis).
      eapply List.Forall_impl; [ | apply List.Forall_forall; intros t Ht; exact Ht].
      intros t Ht. cbv beta.
      rewrite JsMap_get_set_ne.
      * exact (proj1 (List.Forall_forall _ _) Hothers t Ht).
      * apply pretty_Z_ne. intros Heq. apply Hfresh. rewrite <- Heq.
        now apply in_map.
    + cbn [sessionIdCounter set_cursorsRef set_sessionIdCounter]. lia.
    + cbn [sessionIdCounter set_cursorsRef set_sessionIdCounter]. lia.
    + rewrite Hkeys, Hids, Hcounter.
      cbn [cursorsRef sessionIdCounter set_cursorsRef set_sessionIdCounter].
      rewrite JsMap_keys_app, JsMap_values_app, map_app, <- !app_assoc.
      cbn [JsMap.keys JsMap.values map fst snd app sessionId length seq].
      split; [reflexivity | split; [ | lia]].
      f_equal. f_equal.
      rewrite <- (seq_shift (length rest) 1), map_map.
      apply map_ext. intros i. f_equal. lia.
Qed.

(** X19 (touches starting together). A start event of several touches whose
    identifiers are distinct and not active appends one cursor per touch
    to the map, in the order of the event, with consecutive session
    identifiers (as long as the counter does not wrap). *)
Theorem touches_start_in_order
    (settings : AppSettings) (rect : DOMRect) (touches : list Touch) (w : World) :
  List.NoDup (map identifier touches) ->
  Forall (fun touch =>
            JsMap.get (pretty (identifier touch)) (cursorsRef w) = None) touches ->
  0 <= sessionIdCounter w ->
  sessionIdCounter w + Z.of_nat (length touches) <= 10000 ->
  let w' := snd (TouchSurface.dispatch settings (TouchEvent Tstart rect touches) w) in
  JsMap.keys (cursorsRef w')
  = JsMap.keys (cursorsRef w) ++ map (fun touch => pretty (identifier touch)) touches
  /\ map sessionId (JsMap.values (cursorsRef w'))
     = map sessionId (JsMap.values (cursorsRef w))
       ++ map (fun i => Z2num (sessionIdCounter w + Z.of_nat i))
              (seq 1 (length touches))
  /\ sessionIdCounter w' = sessionIdCounter w + Z.of_nat (length touches).
Proof.
  intros Hdistinct Habsent Hpos Hroom w'. subst w'.
  rewrite dispatch_touch_world. cbn [cursorsRef sessionIdCounter set_fseq].
  now apply forEach_start_appends.
Qed.

(** Three fingers land together on an empty surface. *)
Lemma touches_start_in_order_sample :
  let rect := mkDOMRect 0 0 100 100 in
  let touches := [mkTouch 5 10 10 0; mkTouch 3 20 20 0; mkTouch 8 30 30 0] in
  let w' := snd (TouchSurface.dispatch DEFAULT_SETTINGS
                   (TouchEvent Tstart rect touches) initialWorld) in
  JsMap.keys (cursorsRef w') = ["5"; "3"; "8"]
  /\ map sessionId (JsMap.values (cursorsRef w')) = [1; 2; 3]%float.
Proof.
  intros rect touches w'.
  destruct (touches_start_in_order DEFAULT_SETTINGS rect touches initialWorld)
    as (Hkeys & Hids & _).
  - repeat constructor; cbn; intuition discriminate.
  - repeat constructor.
  - cbn. lia.
  - cbn. lia.
  - split; [exact Hkeys | exact Hids].
Defined.
